(** * Buscador de Señas DILSE: the search form of [src/App.tsx]

    The application is one React file.  [App] keeps the raw input text, the
    last submitted term and the image URL; [ImageDisplay] keeps an error
    message and a loading flag and shows a placeholder, a spinner, an error
    box or the image.  This development embeds the event handlers, the
    effect and the render function of that file, together with the
    ECMAScript built-ins they call ([trim], [toLowerCase],
    [encodeURIComponent]), and proves properties of the resulting
    transition system. *)

From Stdlib Require Import ZArith List Bool Lia String Ascii.
Import ListNotations.
Local Open Scope Z_scope.

(** ** ECMAScript strings and the built-ins used by the form *)

Module JS.

(** A JavaScript string is a sequence of UTF-16 code units. *)
Definition jsstring := list Z.

Definition isCodeUnit (c : Z) : bool := (0 <=? c) && (c <=? 0xFFFF).

Definition isCodeUnits (s : jsstring) : bool := forallb isCodeUnit s.

(** The code units of a literal written in ASCII. *)
Definition lit (s : string) : jsstring :=
  map (fun a => Z.of_N (N_of_ascii a)) (list_ascii_of_string s).

Arguments lit s%_string.

Definition jsstring_eq_dec : forall a b : jsstring, {a = b} + {a <> b} :=
  list_eq_dec Z.eq_dec.

(** ToBoolean on a string: only the empty string is falsy. *)
Definition truthy (s : jsstring) : bool :=
  match s with [] => false | _ :: _ => true end.

(** *** String.prototype.trim *)

(** WhiteSpace: TAB, VT, FF, ZWNBSP and the code points of category Zs. *)
Definition isWhiteSpace (c : Z) : bool :=
  (c =? 0x09) || (c =? 0x0B) || (c =? 0x0C) || (c =? 0xFEFF) ||
  (c =? 0x20) || (c =? 0xA0) || (c =? 0x1680) ||
  ((0x2000 <=? c) && (c <=? 0x200A)) ||
  (c =? 0x202F) || (c =? 0x205F) || (c =? 0x3000).

(** LineTerminator: LF, CR, LS, PS. *)
Definition isLineTerminator (c : Z) : bool :=
  (c =? 0x0A) || (c =? 0x0D) || (c =? 0x2028) || (c =? 0x2029).

Definition isStrWhiteSpaceChar (c : Z) : bool :=
  isWhiteSpace c || isLineTerminator c.

Fixpoint trimStart (s : jsstring) : jsstring :=
  match s with
  | [] => []
  | c :: r => if isStrWhiteSpaceChar c then trimStart r else s
  end.

Definition trimEnd (s : jsstring) : jsstring := rev (trimStart (rev s)).

(** TrimString(S, start+end). *)
Definition trim (s : jsstring) : jsstring := trimEnd (trimStart s).

(** *** Code points *)

Definition isLeadingSurrogate (c : Z) : bool := (0xD800 <=? c) && (c <=? 0xDBFF).
Definition isTrailingSurrogate (c : Z) : bool := (0xDC00 <=? c) && (c <=? 0xDFFF).

Definition UTF16SurrogatePairToCodePoint (lead trail : Z) : Z :=
  (lead - 0xD800) * 0x400 + (trail - 0xDC00) + 0x10000.

(** StringToCodePoints: a surrogate pair is one code point, an unpaired
    surrogate is the code point of its own value. *)
Fixpoint StringToCodePoints (s : jsstring) : list Z :=
  match s with
  | [] => []
  | c :: r =>
      if isLeadingSurrogate c then
        match r with
        | d :: r' =>
            if isTrailingSurrogate d
            then UTF16SurrogatePairToCodePoint c d :: StringToCodePoints r'
            else c :: StringToCodePoints r
        | [] => [c]
        end
      else c :: StringToCodePoints r
  end.

Definition UTF16EncodeCodePoint (cp : Z) : jsstring :=
  if cp <=? 0xFFFF then [cp]
  else [(cp - 0x10000) / 0x400 + 0xD800; (cp - 0x10000) mod 0x400 + 0xDC00].

Definition CodePointsToString (text : list Z) : jsstring :=
  flat_map UTF16EncodeCodePoint text.

(** IsStringWellFormedUnicode: no unpaired surrogate. *)
Fixpoint isWellFormed (s : jsstring) : bool :=
  match s with
  | [] => true
  | c :: r =>
      if isLeadingSurrogate c then
        match r with
        | d :: r' => isTrailingSurrogate d && isWellFormed r'
        | [] => false
        end
      else negb (isTrailingSurrogate c) && isWellFormed r
  end.

(** A string of 16-bit code units with no unpaired surrogate. *)
Definition isScalarString (s : jsstring) : bool := isCodeUnits s && isWellFormed s.

(** *** String.prototype.toLowerCase *)

(** A casing table: the lowercase form of a code point between the code
    points before it and those after it. *)
Definition LowerTable : Type := list Z -> Z -> list Z -> list Z.

Section Casing.

(** The lowercase mapping of the Unicode Character Database (UnicodeData
    and the language-insensitive part of SpecialCasing) for a code point
    above U+00FF that is not a surrogate, given the code points before and
    after it.  The table belongs to the engine, not to the repository, and
    grows with every Unicode version: it is a parameter here. *)
Variable unicodeLower : LowerTable.

(** Basic Latin and Latin-1: A-Z, and À-Þ without the multiplication sign. *)
Definition lowerLatin1 (c : Z) : Z :=
  if ((0x41 <=? c) && (c <=? 0x5A)) ||
     ((0xC0 <=? c) && (c <=? 0xDE) && negb (c =? 0xD7))
  then c + 0x20 else c.

Definition toLowercaseAt (before : list Z) (c : Z) (after : list Z) : list Z :=
  if c <=? 0xFF then [lowerLatin1 c]
  else if (0xD800 <=? c) && (c <=? 0xDFFF) then [c]
  else unicodeLower before c after.

Fixpoint toLowercaseFrom (before text : list Z) : list Z :=
  match text with
  | [] => []
  | c :: after => toLowercaseAt before c after ++ toLowercaseFrom (before ++ [c]) after
  end.

Definition toLowerCase (s : jsstring) : jsstring :=
  CodePointsToString (toLowercaseFrom [] (StringToCodePoints s)).

End Casing.

(** *** encodeURIComponent *)

Inductive exn : Set := URIError.

Inductive completion (A : Type) : Type :=
| Normal (v : A)
| Throw (e : exn).

Arguments Normal {A} v.
Arguments Throw {A} e.

Definition bind {A B} (c : completion A) (k : A -> completion B) : completion B :=
  match c with
  | Normal v => k v
  | Throw e => Throw e
  end.

(** The ASCII word characters followed by the marks that [encodeURIComponent]
    leaves alone (the apostrophe is code unit 0x27). *)
Definition alwaysUnescaped : jsstring :=
  lit "ABCDEFGHIJKLMNOPQRSTUVWXYZabcdefghijklmnopqrstuvwxyz0123456789_"
  ++ lit "-.!~*" ++ [0x27] ++ lit "()".

Definition isUnescaped (c : Z) : bool := existsb (Z.eqb c) alwaysUnescaped.

(** The octets of the UTF-8 form of a code point. *)
Definition utf8Octets (cp : Z) : list Z :=
  if cp <=? 0x7F then [cp]
  else if cp <=? 0x7FF then
    [0xC0 + cp / 0x40; 0x80 + cp mod 0x40]
  else if cp <=? 0xFFFF then
    [0xE0 + cp / 0x1000; 0x80 + (cp / 0x40) mod 0x40; 0x80 + cp mod 0x40]
  else
    [0xF0 + cp / 0x40000; 0x80 + (cp / 0x1000) mod 0x40;
     0x80 + (cp / 0x40) mod 0x40; 0x80 + cp mod 0x40].

Definition hexDigit (n : Z) : Z := if n <? 10 then 0x30 + n else 0x41 + (n - 10).

(** "%" followed by the two uppercase hexadecimal digits of the octet. *)
Definition percentOctet (b : Z) : jsstring := [0x25; hexDigit (b / 16); hexDigit (b mod 16)].

Definition escapeCodePoint (cp : Z) : jsstring := flat_map percentOctet (utf8Octets cp).

(** Encode(string, ""): an unescaped code unit is copied, any other code
    point is escaped octet by octet, an unpaired surrogate throws. *)
Fixpoint Encode (s : jsstring) : completion jsstring :=
  match s with
  | [] => Normal []
  | c :: r =>
      if isUnescaped c then bind (Encode r) (fun R => Normal (c :: R))
      else if isLeadingSurrogate c then
        match r with
        | d :: r' =>
            if isTrailingSurrogate d
            then bind (Encode r') (fun R =>
                   Normal (escapeCodePoint (UTF16SurrogatePairToCodePoint c d) ++ R))
            else Throw URIError
        | [] => Throw URIError
        end
      else if isTrailingSurrogate c then Throw URIError
      else bind (Encode r) (fun R => Normal (escapeCodePoint c ++ R))
  end.

Definition encodeURIComponent (s : jsstring) : completion jsstring := Encode s.

(** *** Percent-decoding, the inverse the round trip is stated with *)

Definition hexValue (c : Z) : option Z :=
  if (0x30 <=? c) && (c <=? 0x39) then Some (c - 0x30)
  else if (0x41 <=? c) && (c <=? 0x46) then Some (c - 0x41 + 10)
  else if (0x61 <=? c) && (c <=? 0x66) then Some (c - 0x61 + 10)
  else None.

(** Each "%XY" becomes the octet XY, any other ASCII code unit its own octet. *)
Fixpoint unescapeOctets (s : jsstring) : option (list Z) :=
  match s with
  | [] => Some []
  | c :: r =>
      if c =? 0x25 then
        match r with
        | h :: l :: r' =>
            match hexValue h, hexValue l, unescapeOctets r' with
            | Some a, Some b, Some o => Some (16 * a + b :: o)
            | _, _, _ => None
            end
        | _ => None
        end
      else if (0 <=? c) && (c <? 0x80) then option_map (cons c) (unescapeOctets r)
      else None
  end.

Definition isContinuation (b : Z) : bool := (0x80 <=? b) && (b <=? 0xBF).

(** Strict UTF-8 decoding: no overlong form, no surrogate, nothing above
    U+10FFFF. *)
Fixpoint utf8Decode (o : list Z) : option (list Z) :=
  match o with
  | [] => Some []
  | b0 :: r =>
      if (0 <=? b0) && (b0 <? 0x80) then option_map (cons b0) (utf8Decode r)
      else if (0xC0 <=? b0) && (b0 <? 0xE0) then
        match r with
        | b1 :: r1 =>
            let cp := (b0 - 0xC0) * 0x40 + (b1 - 0x80) in
            if isContinuation b1 && (0x80 <=? cp)
            then option_map (cons cp) (utf8Decode r1) else None
        | _ => None
        end
      else if (0xE0 <=? b0) && (b0 <? 0xF0) then
        match r with
        | b1 :: b2 :: r2 =>
            let cp := (b0 - 0xE0) * 0x1000 + (b1 - 0x80) * 0x40 + (b2 - 0x80) in
            if isContinuation b1 && isContinuation b2 && (0x800 <=? cp)
               && negb ((0xD800 <=? cp) && (cp <=? 0xDFFF))
            then option_map (cons cp) (utf8Decode r2) else None
        | _ => None
        end
      else if (0xF0 <=? b0) && (b0 <? 0xF8) then
        match r with
        | b1 :: b2 :: b3 :: r3 =>
            let cp := (b0 - 0xF0) * 0x40000 + (b1 - 0x80) * 0x1000
                      + (b2 - 0x80) * 0x40 + (b3 - 0x80) in
            if isContinuation b1 && isContinuation b2 && isContinuation b3
               && (0x10000 <=? cp) && (cp <=? 0x10FFFF)
            then option_map (cons cp) (utf8Decode r3) else None
        | _ => None
        end
      else None
  end.

Definition percentDecode (s : jsstring) : option jsstring :=
  match unescapeOctets s with
  | Some o => option_map CodePointsToString (utf8Decode o)
  | None => None
  end.

End JS.

Import JS.

(** ** The components of [src/App.tsx] *)

Module App.

(** State of [App] (its three [useState] cells). *)
Record AppState : Type := {
  searchTerm : jsstring;
  submittedTerm : jsstring;
  imageUrl : option jsstring
}.

(** State of [ImageDisplay] (its two [useState] cells). *)
Record DisplayState : Type := {
  error : option jsstring;
  isLoading : bool
}.

(** The page: [App] with its one [ImageDisplay] child. *)
Record Page : Type := {
  app : AppState;
  display : DisplayState
}.

(** ToBoolean on [string | null]. *)
Definition truthyOpt (o : option jsstring) : bool :=
  match o with
  | Some s => truthy s
  | None => false
  end.

(** [x || ''] on [string | null]. *)
Definition orEmpty (o : option jsstring) : jsstring :=
  if truthyOpt o then match o with Some s => s | None => [] end else [].

(** [Object.is] on [string | null], the comparison of effect dependencies. *)
Definition sameValue (a b : option jsstring) : bool :=
  match a, b with
  | None, None => true
  | Some x, Some y => if jsstring_eq_dec x y then true else false
  | _, _ => false
  end.

(** *** Event handlers run in a small state-and-exception monad

    A state setter called before an exception is thrown stays queued and is
    applied at the next render, so the state reached so far is kept beside
    the abrupt completion. *)

Definition Handler (A : Type) : Type := AppState -> AppState * completion A.

Definition ret {A} (a : A) : Handler A := fun s => (s, Normal a).

Definition seq {A B} (m : Handler A) (k : A -> Handler B) : Handler B :=
  fun s =>
    match m s with
    | (s', Normal a) => k a s'
    | (s', Throw e) => (s', Throw e)
    end.

Definition lift {A} (c : completion A) : Handler A := fun s => (s, c).

Notation "x <- m ;; k" := (seq m (fun x => k))
  (at level 61, m at next level, right associativity).
Notation "m ;; k" := (seq m (fun _ => k))
  (at level 61, right associativity).

Definition setSearchTerm (v : jsstring) : Handler unit :=
  fun s => ({| searchTerm := v; submittedTerm := submittedTerm s; imageUrl := imageUrl s |},
            Normal tt).

Definition setSubmittedTerm (v : jsstring) : Handler unit :=
  fun s => ({| searchTerm := searchTerm s; submittedTerm := v; imageUrl := imageUrl s |},
            Normal tt).

Definition setImageUrl (v : option jsstring) : Handler unit :=
  fun s => ({| searchTerm := searchTerm s; submittedTerm := submittedTerm s; imageUrl := v |},
            Normal tt).

Definition basePath : jsstring :=
  lit "https://fundacioncnse-dilse.org/bddilse/images/stories/".

Definition pngSuffix : jsstring := lit ".png".

(** The template literal of line 95: the URL of the image of a term. *)
Definition resolveImageUrl (cleanTerm : jsstring) : completion jsstring :=
  bind (encodeURIComponent cleanTerm) (fun enc => Normal (basePath ++ enc ++ pngSuffix)).

(** The message of [handleImageError]; its accented letters are U+00F3 and
    U+00ED, the quotation marks around the term are U+0022. *)
Definition notFoundMessage (searchTerm : jsstring) : jsstring :=
  lit "No se encontr" ++ [0xF3] ++ lit " la imagen para la palabra: " ++ [0x22]
  ++ searchTerm ++ [0x22] ++ lit ". Por favor, verifica la ortograf" ++ [0xED] ++ lit "a.".

(** What [ImageDisplay] returns: the placeholder, or the panel with the
    spinner, the error box and the [img] element. *)
Inductive View : Type :=
| Placeholder
| Panel (spinner : bool) (errorBox : option jsstring)
        (imgSrc imgAlt : jsstring) (imgHidden : bool).

(** The four visual states of the page, read off the view. *)
Inductive Phase : Set := Idle | Pending | Success | Failure.

Definition phaseOf (v : View) : Phase :=
  match v with
  | Placeholder => Idle
  | Panel true _ _ _ _ => Pending
  | Panel false (Some _) _ _ _ => Failure
  | Panel false None _ _ _ => Success
  end.

(** Events of the page.  A load or error event of the [img] element carries
    the address whose fetch it reports; the handlers take no argument and
    never see it. *)
Inductive event : Type :=
| OnChange (value : jsstring)
| OnSubmit
| OnError (src : jsstring)
| OnLoad (src : jsstring).

Section Controller.

Variable unicodeLower : LowerTable.

(** [searchTerm.trim().toLowerCase()] *)
Definition cleanTermOf (raw : jsstring) : jsstring :=
  toLowerCase unicodeLower (trim raw).

(** The submit handler of the form; [e.preventDefault()] touches no state
    of the page and is left out. *)
Definition handleSubmit : Handler unit :=
  fun s =>
    let cleanTerm := cleanTermOf (searchTerm s) in
    (if negb (truthy cleanTerm) then
       setImageUrl None ;;
       setSubmittedTerm [] ;;
       ret tt
     else
       setSubmittedTerm cleanTerm ;;
       url <- lift (resolveImageUrl cleanTerm) ;;
       setImageUrl (Some url)) s.

(** The body of the effect of [ImageDisplay]. *)
Definition imageUrlEffect (imageUrl : option jsstring) (d : DisplayState) : DisplayState :=
  if truthyOpt imageUrl
  then {| error := None; isLoading := true |}
  else {| error := None; isLoading := false |}.

(** A render after the first: the effect runs only when its dependency
    [imageUrl] differs from the one of the previous render. *)
Definition useEffect (previous current : option jsstring) (d : DisplayState) : DisplayState :=
  if sameValue previous current then d else imageUrlEffect current d.

Definition handleImageError (searchTerm : jsstring) (d : DisplayState) : DisplayState :=
  {| error := Some (notFoundMessage searchTerm); isLoading := false |}.

Definition handleImageLoad (d : DisplayState) : DisplayState :=
  {| error := error d; isLoading := false |}.

Definition ImageDisplay (imageUrl : option jsstring) (searchTerm : jsstring)
    (d : DisplayState) : View :=
  if negb (truthyOpt imageUrl) && negb (truthyOpt (error d)) then Placeholder
  else
    Panel (isLoading d)
          (if truthyOpt (error d) && negb (isLoading d) then error d else None)
          (orEmpty imageUrl)
          (if truthy searchTerm then lit "Lengua de signos para: " ++ searchTerm else [])
          (isLoading d || truthyOpt (error d)).

(** The view of a page: [<ImageDisplay imageUrl={imageUrl} searchTerm={submittedTerm} />]. *)
Definition view (p : Page) : View :=
  ImageDisplay (imageUrl (app p)) (submittedTerm (app p)) (display p).

Definition phase (p : Page) : Phase := phaseOf (view p).

(** The [img] element, with its two handlers, exists only in the panel. *)
Definition imgMounted (p : Page) : bool :=
  match view p with
  | Placeholder => false
  | Panel _ _ _ _ _ => true
  end.

(** One event: the handler runs, then the page renders again and the
    effect looks at its dependency. *)
Definition dispatch (ev : event) (p : Page) : Page * completion unit :=
  match ev with
  | OnChange value =>
      let (a, c) := setSearchTerm value (app p) in
      ({| app := a; display := useEffect (imageUrl (app p)) (imageUrl a) (display p) |}, c)
  | OnSubmit =>
      let (a, c) := handleSubmit (app p) in
      ({| app := a; display := useEffect (imageUrl (app p)) (imageUrl a) (display p) |}, c)
  | OnError _ =>
      if imgMounted p
      then ({| app := app p; display := handleImageError (submittedTerm (app p)) (display p) |},
            Normal tt)
      else (p, Normal tt)
  | OnLoad _ =>
      if imgMounted p
      then ({| app := app p; display := handleImageLoad (display p) |}, Normal tt)
      else (p, Normal tt)
  end.

Definition step (ev : event) (p : Page) : Page := fst (dispatch ev p).

Definition outcome (ev : event) (p : Page) : completion unit := snd (dispatch ev p).

Definition run (evs : list event) (p : Page) : Page :=
  fold_left (fun q ev => step ev q) evs p.

(** The page after the first render: every cell at its initial value, the
    effect run once. *)
Definition mounted : Page :=
  {| app := {| searchTerm := []; submittedTerm := []; imageUrl := None |};
     display := imageUrlEffect None {| error := None; isLoading := false |} |}.

(** Typing a term and pressing the button. *)
Definition submit (raw : jsstring) (p : Page) : Page :=
  step OnSubmit (step (OnChange raw) p).

Definition submitOutcome (raw : jsstring) (p : Page) : completion unit :=
  outcome OnSubmit (step (OnChange raw) p).

(** The pages the application can be in. *)
Inductive reachable : Page -> Prop :=
| reachable_mounted : reachable mounted
| reachable_step (ev : event) (p : Page) : reachable p -> reachable (step ev p).

End Controller.

Definition isSubmit (ev : event) : bool :=
  match ev with
  | OnSubmit => true
  | _ => false
  end.

End App.

Import App.

(** ** Vocabulary of the properties *)

Module Props.

(** A Unicode scalar value: a code point that is not a surrogate. *)
Definition isScalarValue (cp : Z) : bool :=
  (0 <=? cp) && (cp <=? 0x10FFFF) && negb ((0xD800 <=? cp) && (cp <=? 0xDFFF)).

Definition isOctet (b : Z) : Prop := 0 <= b < 256.

Definition isUpperHex (c : Z) : bool :=
  ((0x30 <=? c) && (c <=? 0x39)) || ((0x41 <=? c) && (c <=? 0x46)).

(** A percent-encoded path segment: unescaped characters and "%XY" triplets
    only, hence no slash, question mark or hash. *)
Fixpoint isPercentEncoded (s : jsstring) : bool :=
  match s with
  | [] => true
  | c :: r =>
      if c =? 0x25 then
        match r with
        | h :: l :: r' => isUpperHex h && isUpperHex l && isPercentEncoded r'
        | _ => false
        end
      else isUnescaped c && isPercentEncoded r
  end.

(** The page is coherent when its image reference is the one of its
    submitted term: absent for the empty term, the resolved URL otherwise. *)
Definition coherent (p : Page) : Prop :=
  match imageUrl (app p) with
  | None => True
  | Some u => resolveImageUrl (submittedTerm (app p)) = Normal u
  end.

(** What every reachable page satisfies: the reference is absent or a
    non-empty string; without a reference nothing is loading and no error is
    kept; while loading there is a reference and no error; a kept error is a
    non-empty message. *)
Definition settled (p : Page) : Prop :=
  (truthyOpt (imageUrl (app p)) = false -> imageUrl (app p) = None)
  /\ (imageUrl (app p) = None -> display p = {| error := None; isLoading := false |})
  /\ (isLoading (display p) = true ->
      error (display p) = None /\ imageUrl (app p) <> None)
  /\ (error (display p) = None \/ truthyOpt (error (display p)) = true).

(** A small instance of the casing table, enough to run the model: the
    Greek capitals (without the final-sigma rule) and U+0130. *)
Definition sampleLower : LowerTable := fun before c after =>
  if (0x391 <=? c) && (c <=? 0x3A9) && negb (c =? 0x3A2) then [c + 0x20]
  else if c =? 0x130 then [0x69; 0x307]
  else [c].

(** The normalized term of the most recent submission that completed
    without raising, read off the events alone; [raw] follows the input box
    and [last] is the term settled so far (empty when there is none). *)
Fixpoint lastSettled (tbl : LowerTable) (raw last : jsstring)
    (evs : list event) : jsstring :=
  match evs with
  | [] => last
  | OnChange value :: rest => lastSettled tbl value last rest
  | OnSubmit :: rest =>
      let t := cleanTermOf tbl raw in
      lastSettled tbl raw (if isWellFormed t then t else last) rest
  | OnError _ :: rest => lastSettled tbl raw last rest
  | OnLoad _ :: rest => lastSettled tbl raw last rest
  end.

Definition casa : jsstring := lit "casa".
Definition perro : jsstring := lit "perro".

Definition casaUrl : jsstring :=
  lit "https://fundacioncnse-dilse.org/bddilse/images/stories/casa.png".

(** A string of Basic Latin and Latin-1 code units only. *)
Definition isLatin1 (s : jsstring) : bool :=
  forallb (fun c => (0 <=? c) && (c <=? 0xFF)) s.

(** The parts of a view the properties speak of. *)
Definition errorBoxOf (v : View) : option jsstring :=
  match v with
  | Placeholder => None
  | Panel _ box _ _ _ => box
  end.

Definition imgSrcOf (v : View) : option jsstring :=
  match v with
  | Placeholder => None
  | Panel _ _ src _ _ => Some src
  end.


Definition spinnerOf (v : View) : bool :=
  match v with
  | Placeholder => false
  | Panel spinner _ _ _ _ => spinner
  end.

(** The [img] element is rendered and not hidden. *)
Definition imgShownOf (v : View) : bool :=
  match v with
  | Placeholder => false
  | Panel _ _ _ _ hidden => negb hidden
  end.

(** A printable ASCII character other than the space. *)
Definition isPrintableAscii (c : Z) : bool := (0x21 <=? c) && (c <=? 0x7E).

Definition noSubmit (evs : list event) : bool :=
  forallb (fun ev => negb (isSubmit ev)) evs.

(** Sample pages: the image of "casa" being fetched, and not found. *)
Definition pendingCasa (tbl : LowerTable) : Page :=
  step tbl OnSubmit (step tbl (OnChange casa) mounted).

Definition failedCasa (tbl : LowerTable) : Page :=
  step tbl (OnError casaUrl) (pendingCasa tbl).

(** The page follows the term [last]: it has no reference when [last] is
    empty, and the reference resolved from [last] otherwise. *)
Definition follows (p : Page) (last : jsstring) : Prop :=
  match imageUrl (app p) with
  | None => last = []
  | Some u => last <> [] /\ resolveImageUrl last = Normal u
  end.

Definition perroUrl : jsstring :=
  lit "https://fundacioncnse-dilse.org/bddilse/images/stories/perro.png".

End Props.

Import Props.

(** ** Facts about the built-ins *)

Module JSFacts.

Ltac zdiv := Z.to_euclidean_division_equations; lia.

(** Boolean tests on integers become linear facts. *)
Ltac boolZ :=
  repeat match goal with
    | H : _ && _ = true |- _ => apply andb_true_iff in H; destruct H
    | H : _ || _ = false |- _ => apply orb_false_iff in H; destruct H
    | H : negb _ = true |- _ => apply negb_true_iff in H
    | H : negb _ = false |- _ => apply negb_false_iff in H
    | H : (_ <=? _) = true |- _ => apply Z.leb_le in H
    | H : (_ <=? _) = false |- _ => apply Z.leb_gt in H
    | H : (_ <? _) = true |- _ => apply Z.ltb_lt in H
    | H : (_ <? _) = false |- _ => apply Z.ltb_ge in H
    | H : (_ =? _) = true |- _ => apply Z.eqb_eq in H
    | H : (_ =? _) = false |- _ => apply Z.eqb_neq in H
    end.

(** Induction that follows the one-or-two code unit steps of the string
    algorithms. *)
Lemma pair_step_ind (P : jsstring -> Prop) :
  P [] ->
  (forall c r, P r -> (forall d r', r = d :: r' -> P r') -> P (c :: r)) ->
  forall s, P s.
Proof.
  intros Hnil Hstep s.
  enough (H : P s /\ (forall d r', s = d :: r' -> P r')) by apply H.
  induction s as [|c r [IH1 IH2]].
  - split; [exact Hnil | discriminate].
  - split.
    + apply Hstep; assumption.
    + intros d r' E. injection E as _ <-. exact IH1.
Qed.

(** *** trim *)

Lemma trimStart_whitespace (s : jsstring) :
  forallb isStrWhiteSpaceChar s = true -> trimStart s = [].
Proof.
  induction s as [|c r IH]; simpl; [reflexivity|].
  intros H. apply andb_true_iff in H. destruct H as [Hc Hr].
  rewrite Hc. auto.
Qed.

Lemma trim_whitespace (s : jsstring) :
  forallb isStrWhiteSpaceChar s = true -> trim s = [].
Proof.
  intros H. unfold trim. rewrite (trimStart_whitespace s H). reflexivity.
Qed.

Lemma toLowerCase_nil (tbl : LowerTable) : toLowerCase tbl [] = [].
Proof. reflexivity. Qed.

(** *** The unescaped set *)

Lemma isUnescaped_ascii (c : Z) :
  isUnescaped c = true -> 0x21 <= c <= 0x7E /\ c <> 0x25 /\ c <> 0x2F.
Proof.
  unfold isUnescaped. intros H. apply existsb_exists in H.
  destruct H as [x [Hin Hx]]. apply Z.eqb_eq in Hx. subst x.
  vm_compute in Hin.
  repeat (destruct Hin as [Hin|Hin]; [subst c; lia|]).
  destruct Hin.
Qed.

(** *** encodeURIComponent throws exactly on an unpaired surrogate *)

Lemma Encode_isWellFormed (s : jsstring) :
  match Encode s with
  | Normal _ => isWellFormed s = true
  | Throw e => e = URIError /\ isWellFormed s = false
  end.
Proof.
  induction s as [|c r IHr IHr'] using pair_step_ind; simpl; [reflexivity|].
  destruct (isUnescaped c) eqn:Hu.
  - apply isUnescaped_ascii in Hu.
    assert (Hl : isLeadingSurrogate c = false)
      by (unfold isLeadingSurrogate; apply andb_false_iff; left; apply Z.leb_gt; lia).
    assert (Ht : isTrailingSurrogate c = false)
      by (unfold isTrailingSurrogate; apply andb_false_iff; left; apply Z.leb_gt; lia).
    rewrite Hl, Ht. simpl. destruct (Encode r); simpl; assumption.
  - destruct (isLeadingSurrogate c) eqn:Hl.
    + destruct r as [|d r']; [split; reflexivity|].
      destruct (isTrailingSurrogate d) eqn:Hd; simpl; [|split; reflexivity].
      specialize (IHr' d r' eq_refl). destruct (Encode r'); simpl; assumption.
    + destruct (isTrailingSurrogate c) eqn:Ht; simpl; [split; reflexivity|].
      destruct (Encode r); simpl; assumption.
Qed.

(** *** Percent-escapes decode to the octets they were made from *)

Lemma hexDigit_of_nat (k : nat) :
  (k < 16)%nat ->
  hexValue (hexDigit (Z.of_nat k)) = Some (Z.of_nat k)
  /\ isUpperHex (hexDigit (Z.of_nat k)) = true.
Proof.
  intros H. do 16 (destruct k as [|k]; [split; reflexivity|]). lia.
Qed.

Lemma hexDigit_cases (n : Z) :
  0 <= n < 16 -> hexValue (hexDigit n) = Some n /\ isUpperHex (hexDigit n) = true.
Proof.
  intros H. rewrite <- (Z2Nat.id n) by lia. apply hexDigit_of_nat. lia.
Qed.

Lemma unescapeOctets_percentOctet (b : Z) (R : jsstring) :
  isOctet b ->
  unescapeOctets (percentOctet b ++ R) = option_map (cons b) (unescapeOctets R).
Proof.
  intros Hb. unfold isOctet in Hb.
  assert (Hh : 0 <= b / 16 < 16) by zdiv.
  assert (Hl : 0 <= b mod 16 < 16) by zdiv.
  unfold percentOctet.
  change (unescapeOctets ([0x25; hexDigit (b / 16); hexDigit (b mod 16)] ++ R))
    with (match hexValue (hexDigit (b / 16)), hexValue (hexDigit (b mod 16)),
                unescapeOctets R with
          | Some x, Some y, Some o => Some (16 * x + y :: o)
          | _, _, _ => None
          end).
  rewrite (proj1 (hexDigit_cases _ Hh)), (proj1 (hexDigit_cases _ Hl)).
  destruct (unescapeOctets R); [|reflexivity].
  cbn [option_map]. do 2 f_equal. zdiv.
Qed.

Lemma unescapeOctets_escapes (os : list Z) (R : jsstring) :
  Forall isOctet os ->
  unescapeOctets (flat_map percentOctet os ++ R) = option_map (List.app os) (unescapeOctets R).
Proof.
  induction 1 as [|b os Hb _ IH].
  - cbn [flat_map List.app]. destruct (unescapeOctets R); reflexivity.
  - cbn [flat_map]. rewrite <- app_assoc, (unescapeOctets_percentOctet _ _ Hb), IH.
    destruct (unescapeOctets R); reflexivity.
Qed.

Lemma utf8Octets_isOctet (cp : Z) :
  0 <= cp <= 0x10FFFF -> Forall isOctet (utf8Octets cp).
Proof.
  intros H. unfold utf8Octets, isOctet.
  destruct (cp <=? 0x7F) eqn:Ea; [|destruct (cp <=? 0x7FF) eqn:Eb;
    [|destruct (cp <=? 0xFFFF) eqn:Ec]]; boolZ;
  repeat (constructor; [zdiv|]); constructor.
Qed.

Lemma unescapeOctets_unescaped (c : Z) (R : jsstring) :
  isUnescaped c = true ->
  unescapeOctets (c :: R) = option_map (cons c) (unescapeOctets R).
Proof.
  intros H. apply isUnescaped_ascii in H. cbn [unescapeOctets].
  replace (c =? 0x25) with false by (symmetry; apply Z.eqb_neq; lia).
  replace ((0 <=? c) && (c <? 0x80)) with true; [reflexivity|].
  symmetry. apply andb_true_iff. split; [apply Z.leb_le|apply Z.ltb_lt]; lia.
Qed.

(** *** UTF-8 decoding inverts UTF-8 encoding on scalar values *)

Ltac settle_test :=
  match goal with
  | |- context [if ?b then _ else _] =>
      let E := fresh "E" in
      destruct b eqn:E;
      repeat match goal with
        | H : _ && _ = true |- _ => apply andb_true_iff in H; destruct H
        | H : _ && _ = false |- _ => apply andb_false_iff in H; destruct H
        | H : _ || _ = true |- _ => apply orb_true_iff in H; destruct H
        | H : _ || _ = false |- _ => apply orb_false_iff in H; destruct H
        | H : negb _ = true |- _ => apply negb_true_iff in H
        | H : negb _ = false |- _ => apply negb_false_iff in H
        | H : (_ <=? _) = true |- _ => apply Z.leb_le in H
        | H : (_ <=? _) = false |- _ => apply Z.leb_gt in H
        | H : (_ <? _) = true |- _ => apply Z.ltb_lt in H
        | H : (_ <? _) = false |- _ => apply Z.ltb_ge in H
        | H : (_ =? _) = true |- _ => apply Z.eqb_eq in H
        | H : (_ =? _) = false |- _ => apply Z.eqb_neq in H
        end;
      try (exfalso; zdiv)
  end.

Lemma utf8Decode_utf8Octets (cp : Z) (O : list Z) :
  isScalarValue cp = true ->
  utf8Decode (utf8Octets cp ++ O) = option_map (cons cp) (utf8Decode O).
Proof.
  intros H. unfold isScalarValue in H. boolZ.
  unfold utf8Octets, isContinuation.
  destruct (cp <=? 0x7F) eqn:Ea; [|destruct (cp <=? 0x7FF) eqn:Eb;
    [|destruct (cp <=? 0xFFFF) eqn:Ec]]; boolZ;
  cbn [List.app utf8Decode]; unfold isContinuation; cbv zeta;
  repeat settle_test;
  match goal with
  | |- option_map (cons ?a) _ = option_map (cons ?b) _ =>
      replace a with b by zdiv; reflexivity
  | |- _ => idtac
  end.
Qed.

Lemma utf8Decode_flat_map (cps : list Z) :
  forallb isScalarValue cps = true ->
  utf8Decode (flat_map utf8Octets cps) = Some cps.
Proof.
  induction cps as [|cp cps IH]; [reflexivity|].
  cbn [forallb flat_map]. intros H. apply andb_true_iff in H. destruct H as [Hcp Hcps].
  rewrite (utf8Decode_utf8Octets _ _ Hcp), (IH Hcps). reflexivity.
Qed.

(** *** Code points of a string, and back *)

Lemma isCodeUnits_cons (c : Z) (r : jsstring) :
  isCodeUnits (c :: r) = true -> 0 <= c <= 0xFFFF /\ isCodeUnits r = true.
Proof.
  unfold isCodeUnits, isCodeUnit. cbn [forallb]. intros H. boolZ. auto.
Qed.

Lemma surrogate_pair_range (c d : Z) :
  isLeadingSurrogate c = true -> isTrailingSurrogate d = true ->
  0x10000 <= UTF16SurrogatePairToCodePoint c d <= 0x10FFFF.
Proof.
  unfold isLeadingSurrogate, isTrailingSurrogate, UTF16SurrogatePairToCodePoint.
  intros Hc Hd. boolZ. lia.
Qed.

Lemma UTF16EncodeCodePoint_pair (c d : Z) :
  isLeadingSurrogate c = true -> isTrailingSurrogate d = true ->
  UTF16EncodeCodePoint (UTF16SurrogatePairToCodePoint c d) = [c; d].
Proof.
  intros Hc Hd. pose proof (surrogate_pair_range c d Hc Hd) as Hr.
  unfold UTF16EncodeCodePoint.
  replace (UTF16SurrogatePairToCodePoint c d <=? 0xFFFF) with false
    by (symmetry; apply Z.leb_gt; lia).
  unfold isLeadingSurrogate, isTrailingSurrogate, UTF16SurrogatePairToCodePoint in *.
  boolZ. f_equal; [|f_equal]; zdiv.
Qed.

Lemma UTF16EncodeCodePoint_unit (c : Z) : c <= 0xFFFF -> UTF16EncodeCodePoint c = [c].
Proof.
  intros H. unfold UTF16EncodeCodePoint.
  replace (c <=? 0xFFFF) with true by (symmetry; apply Z.leb_le; lia). reflexivity.
Qed.

Lemma CodePointsToString_StringToCodePoints (s : jsstring) :
  isCodeUnits s = true -> CodePointsToString (StringToCodePoints s) = s.
Proof.
  induction s as [|c r IHr IHr'] using pair_step_ind; [reflexivity|].
  intros H. apply isCodeUnits_cons in H. destruct H as [Hc Hr].
  cbn [StringToCodePoints]. unfold CodePointsToString in *.
  destruct (isLeadingSurrogate c) eqn:Hl.
  - destruct r as [|d r'].
    + cbn [flat_map]. rewrite UTF16EncodeCodePoint_unit by lia. reflexivity.
    + destruct (isTrailingSurrogate d) eqn:Hd; cbn [flat_map].
      * rewrite (UTF16EncodeCodePoint_pair c d Hl Hd).
        apply isCodeUnits_cons in Hr. destruct Hr as [_ Hr'].
        rewrite (IHr' d r' eq_refl Hr'). reflexivity.
      * rewrite UTF16EncodeCodePoint_unit by lia. rewrite (IHr Hr). reflexivity.
  - cbn [flat_map]. rewrite UTF16EncodeCodePoint_unit by lia. rewrite (IHr Hr). reflexivity.
Qed.

Lemma StringToCodePoints_scalar (s : jsstring) :
  isScalarString s = true -> forallb isScalarValue (StringToCodePoints s) = true.
Proof.
  unfold isScalarString.
  induction s as [|c r IHr IHr'] using pair_step_ind; [reflexivity|].
  intros H. apply andb_true_iff in H. destruct H as [Hu Hw].
  apply isCodeUnits_cons in Hu. destruct Hu as [Hc Hr].
  cbn [StringToCodePoints isWellFormed] in *.
  destruct (isLeadingSurrogate c) eqn:Hl.
  - destruct r as [|d r']; [discriminate|].
    apply andb_true_iff in Hw. destruct Hw as [Hd Hw]. rewrite Hd.
    apply isCodeUnits_cons in Hr. destruct Hr as [_ Hr'].
    cbn [forallb]. apply andb_true_iff. split.
    + pose proof (surrogate_pair_range c d Hl Hd). unfold isScalarValue.
      repeat (apply andb_true_iff; split); [apply Z.leb_le; lia|apply Z.leb_le; lia|].
      apply negb_true_iff, andb_false_iff. right. apply Z.leb_gt. lia.
    + apply (IHr' d r' eq_refl). rewrite Hr', Hw. reflexivity.
  - apply andb_true_iff in Hw. destruct Hw as [Ht Hw].
    cbn [forallb]. apply andb_true_iff. split.
    + unfold isScalarValue, isLeadingSurrogate, isTrailingSurrogate in *.
      repeat (apply andb_true_iff; split); [apply Z.leb_le; lia|apply Z.leb_le; lia|].
      apply negb_true_iff. apply negb_true_iff in Ht.
      apply andb_false_iff in Hl, Ht. apply andb_false_iff.
      destruct Hl as [Hl|Hl], Ht as [Ht|Ht]; boolZ;
        first [left; apply Z.leb_gt; lia | right; apply Z.leb_gt; lia].
    + apply IHr. rewrite Hr, Hw. reflexivity.
Qed.

(** *** The octets behind an encoded string *)

Lemma escapeCodePoint_octets (cp : Z) (R : jsstring) :
  0 <= cp <= 0x10FFFF ->
  unescapeOctets (escapeCodePoint cp ++ R)
  = option_map (List.app (utf8Octets cp)) (unescapeOctets R).
Proof.
  intros H. apply unescapeOctets_escapes, utf8Octets_isOctet, H.
Qed.

Lemma Encode_octets (s : jsstring) :
  isCodeUnits s = true ->
  forall e, Encode s = Normal e ->
  unescapeOctets e = Some (flat_map utf8Octets (StringToCodePoints s)).
Proof.
  induction s as [|c r IHr IHr'] using pair_step_ind.
  - intros _ e E. injection E as <-. reflexivity.
  - intros H e E. apply isCodeUnits_cons in H. destruct H as [Hc Hr].
    cbn [Encode StringToCodePoints] in *.
    destruct (isUnescaped c) eqn:Hu.
    + pose proof (isUnescaped_ascii c Hu) as Ha.
      replace (isLeadingSurrogate c) with false
        by (symmetry; unfold isLeadingSurrogate; apply andb_false_iff; left; apply Z.leb_gt; lia).
      destruct (Encode r) as [R|] eqn:ER; [|discriminate].
      injection E as <-. rewrite (unescapeOctets_unescaped _ _ Hu).
      rewrite (IHr Hr R ltac:(first [exact eq_refl | assumption])).
      cbn [flat_map option_map]. unfold utf8Octets.
      replace (c <=? 0x7F) with true by (symmetry; apply Z.leb_le; lia). reflexivity.
    + destruct (isLeadingSurrogate c) eqn:Hl.
      * destruct r as [|d r']; [discriminate|].
        destruct (isTrailingSurrogate d) eqn:Hd; [|discriminate].
        destruct (Encode r') as [R|] eqn:ER; [|discriminate].
        injection E as <-. apply isCodeUnits_cons in Hr. destruct Hr as [_ Hr'].
        pose proof (surrogate_pair_range c d Hl Hd).
        rewrite escapeCodePoint_octets by lia.
        rewrite (IHr' d r' eq_refl Hr' R ltac:(first [exact eq_refl | assumption])). reflexivity.
      * destruct (isTrailingSurrogate c) eqn:Ht; [discriminate|].
        destruct (Encode r) as [R|] eqn:ER; [|discriminate].
        injection E as <-. rewrite escapeCodePoint_octets by lia.
        rewrite (IHr Hr R ltac:(first [exact eq_refl | assumption])). reflexivity.
Qed.

(** Percent-decoding gives back the string that was encoded. *)
Lemma percentDecode_Encode (s e : jsstring) :
  isScalarString s = true -> Encode s = Normal e -> percentDecode e = Some s.
Proof.
  intros Hs E. pose proof Hs as Hs'. unfold isScalarString in Hs'.
  apply andb_true_iff in Hs'. destruct Hs' as [Hu _].
  unfold percentDecode. rewrite (Encode_octets s Hu e E).
  rewrite (utf8Decode_flat_map _ (StringToCodePoints_scalar s Hs)).
  cbn [option_map]. rewrite (CodePointsToString_StringToCodePoints s Hu). reflexivity.
Qed.

Lemma Encode_injective (s1 s2 e : jsstring) :
  isScalarString s1 = true -> isScalarString s2 = true ->
  Encode s1 = Normal e -> Encode s2 = Normal e -> s1 = s2.
Proof.
  intros H1 H2 E1 E2.
  pose proof (percentDecode_Encode s1 e H1 E1) as D1.
  pose proof (percentDecode_Encode s2 e H2 E2) as D2.
  congruence.
Qed.

(** *** The shape of an encoded string *)

Lemma isPercentEncoded_escapes (os : list Z) (R : jsstring) :
  Forall isOctet os ->
  isPercentEncoded (flat_map percentOctet os ++ R) = isPercentEncoded R.
Proof.
  induction 1 as [|b os Hb _ IH]; [reflexivity|].
  unfold isOctet in Hb.
  assert (Hh : 0 <= b / 16 < 16) by zdiv.
  assert (Hl : 0 <= b mod 16 < 16) by zdiv.
  cbn [flat_map]. rewrite <- app_assoc. unfold percentOctet at 1.
  change (isPercentEncoded ([0x25; hexDigit (b / 16); hexDigit (b mod 16)]
                            ++ flat_map percentOctet os ++ R))
    with (isUpperHex (hexDigit (b / 16)) && isUpperHex (hexDigit (b mod 16))
          && isPercentEncoded (flat_map percentOctet os ++ R)).
  rewrite (proj2 (hexDigit_cases _ Hh)), (proj2 (hexDigit_cases _ Hl)), IH. reflexivity.
Qed.

Lemma isPercentEncoded_unescaped (c : Z) (R : jsstring) :
  isUnescaped c = true -> isPercentEncoded (c :: R) = isPercentEncoded R.
Proof.
  intros H. pose proof (isUnescaped_ascii c H) as Ha. cbn [isPercentEncoded].
  replace (c =? 0x25) with false by (symmetry; apply Z.eqb_neq; lia).
  rewrite H. reflexivity.
Qed.

Lemma Encode_isPercentEncoded (s : jsstring) :
  isCodeUnits s = true ->
  forall e, Encode s = Normal e -> isPercentEncoded e = true.
Proof.
  induction s as [|c r IHr IHr'] using pair_step_ind.
  - intros _ e E. injection E as <-. reflexivity.
  - intros H e E. apply isCodeUnits_cons in H. destruct H as [Hc Hr].
    cbn [Encode] in E.
    destruct (isUnescaped c) eqn:Hu.
    + destruct (Encode r) as [R|] eqn:ER; [|discriminate].
      injection E as <-. rewrite (isPercentEncoded_unescaped _ _ Hu).
      apply (IHr Hr R). first [exact eq_refl | assumption].
    + destruct (isLeadingSurrogate c) eqn:Hl.
      * destruct r as [|d r']; [discriminate|].
        destruct (isTrailingSurrogate d) eqn:Hd; [|discriminate].
        destruct (Encode r') as [R|] eqn:ER; [|discriminate].
        injection E as <-. apply isCodeUnits_cons in Hr. destruct Hr as [_ Hr'].
        pose proof (surrogate_pair_range c d Hl Hd).
        unfold escapeCodePoint.
        rewrite isPercentEncoded_escapes by (apply utf8Octets_isOctet; lia).
        apply (IHr' d r' eq_refl Hr' R). first [exact eq_refl | assumption].
      * destruct (isTrailingSurrogate c) eqn:Ht; [discriminate|].
        destruct (Encode r) as [R|] eqn:ER; [|discriminate].
        injection E as <-. unfold escapeCodePoint.
        rewrite isPercentEncoded_escapes by (apply utf8Octets_isOctet; lia).
        apply (IHr Hr R). first [exact eq_refl | assumption].
Qed.

(** Every code unit of a percent-encoded segment is an unescaped character,
    the percent sign or an uppercase hexadecimal digit. *)
Lemma isPercentEncoded_units (n : nat) :
  forall s : jsstring, (List.length s <= n)%nat -> isPercentEncoded s = true ->
  forall c, In c s -> isUnescaped c = true \/ c = 0x25 \/ isUpperHex c = true.
Proof.
  induction n as [|n IH]; intros s Hn Hs c Hin.
  - destruct s; [destruct Hin | simpl in Hn; lia].
  - destruct s as [|x r]; [destruct Hin|].
    cbn [isPercentEncoded] in Hs. cbn [List.length] in Hn.
    destruct (x =? 0x25) eqn:Hx.
    + apply Z.eqb_eq in Hx.
      destruct r as [|h [|l r']]; try discriminate.
      apply andb_true_iff in Hs. destruct Hs as [Hs Hr'].
      apply andb_true_iff in Hs. destruct Hs as [Hh Hl].
      cbn [List.length] in Hn.
      destruct Hin as [<-|[<-|[<-|Hin]]]; auto.
      apply (IH r'); auto. lia.
    + apply andb_true_iff in Hs. destruct Hs as [Hu Hr].
      destruct Hin as [<-|Hin]; auto.
      apply (IH r); auto. lia.
Qed.

Lemma isPercentEncoded_no_slash (s : jsstring) :
  isPercentEncoded s = true -> ~ In 0x2F s.
Proof.
  intros Hs Hin.
  destruct (isPercentEncoded_units (List.length s) s (le_n _) Hs _ Hin) as [H|[H|H]];
    vm_compute in H; discriminate.
Qed.

End JSFacts.


Import JSFacts.

(** ** Facts about the handlers and the transition system *)

Module AppFacts.

Lemma sameValue_refl (a : option jsstring) : sameValue a a = true.
Proof.
  destruct a as [x|]; [|reflexivity].
  unfold sameValue. destruct (jsstring_eq_dec x x); congruence.
Qed.

Lemma sameValue_true (a b : option jsstring) : sameValue a b = true <-> a = b.
Proof.
  split; [|intros ->; apply sameValue_refl].
  destruct a as [x|], b as [y|]; cbn [sameValue]; try discriminate; auto.
  destruct (jsstring_eq_dec x y); [congruence|discriminate].
Qed.

Lemma sameValue_false (a b : option jsstring) : sameValue a b = false <-> a <> b.
Proof.
  pose proof (sameValue_true a b) as H.
  destruct (sameValue a b); split; intros; try congruence.
  - exfalso. intuition congruence.
  - intros E. apply H in E. discriminate.
Qed.

Lemma truthy_false (s : jsstring) : truthy s = false <-> s = [].
Proof. destruct s; cbn; split; congruence. Qed.

Lemma truthy_true (s : jsstring) : truthy s = true <-> s <> [].
Proof. destruct s; cbn; split; congruence. Qed.

Lemma truthy_basePath (x : jsstring) : truthy (basePath ++ x) = true.
Proof. reflexivity. Qed.

Lemma truthy_notFoundMessage (t : jsstring) : truthy (notFoundMessage t) = true.
Proof. reflexivity. Qed.

Lemma resolveImageUrl_Normal (t u : jsstring) :
  resolveImageUrl t = Normal u <->
  exists e, Encode t = Normal e /\ u = basePath ++ e ++ pngSuffix.
Proof.
  unfold resolveImageUrl, encodeURIComponent.
  destruct (Encode t) as [e|x]; cbn [bind]; split.
  - intros H. injection H as <-. exists e. auto.
  - intros [e' [H ->]]. injection H as ->. reflexivity.
  - discriminate.
  - intros [e' [H _]]. discriminate.
Qed.

Lemma resolveImageUrl_Throw (t : jsstring) :
  isWellFormed t = false -> resolveImageUrl t = Throw URIError.
Proof.
  intros H. unfold resolveImageUrl, encodeURIComponent.
  pose proof (Encode_isWellFormed t) as HE.
  destruct (Encode t) as [e|x]; [congruence|].
  destruct HE as [-> _]. reflexivity.
Qed.

Lemma resolveImageUrl_wellFormed (t : jsstring) :
  isWellFormed t = true -> exists e, Encode t = Normal e.
Proof.
  intros H. pose proof (Encode_isWellFormed t) as HE.
  destruct (Encode t) as [e|x]; [eauto|].
  destruct HE as [_ HE]. congruence.
Qed.

Section Controller.

Variable tbl : LowerTable.

Lemma cleanTermOf_blank (raw : jsstring) :
  forallb isStrWhiteSpaceChar raw = true -> cleanTermOf tbl raw = [].
Proof.
  intros H. unfold cleanTermOf. rewrite (trim_whitespace raw H). reflexivity.
Qed.

(** The three ways [handleSubmit] ends. *)
Lemma handleSubmit_blank (s : AppState) :
  cleanTermOf tbl (searchTerm s) = [] ->
  handleSubmit tbl s =
  ({| searchTerm := searchTerm s; submittedTerm := []; imageUrl := None |}, Normal tt).
Proof.
  intros H. unfold handleSubmit. rewrite H. reflexivity.
Qed.

Lemma handleSubmit_resolved (s : AppState) (u : jsstring) :
  cleanTermOf tbl (searchTerm s) <> [] ->
  resolveImageUrl (cleanTermOf tbl (searchTerm s)) = Normal u ->
  handleSubmit tbl s =
  ({| searchTerm := searchTerm s; submittedTerm := cleanTermOf tbl (searchTerm s);
      imageUrl := Some u |}, Normal tt).
Proof.
  intros Hne Hu. unfold handleSubmit.
  apply truthy_true in Hne. rewrite Hne. cbn [negb].
  unfold seq, lift, setSubmittedTerm, setImageUrl. cbn. rewrite Hu. reflexivity.
Qed.

Lemma handleSubmit_raises (s : AppState) :
  cleanTermOf tbl (searchTerm s) <> [] ->
  isWellFormed (cleanTermOf tbl (searchTerm s)) = false ->
  handleSubmit tbl s =
  ({| searchTerm := searchTerm s; submittedTerm := cleanTermOf tbl (searchTerm s);
      imageUrl := imageUrl s |}, Throw URIError).
Proof.
  intros Hne Hw. unfold handleSubmit.
  apply truthy_true in Hne. rewrite Hne. cbn [negb].
  unfold seq, lift, setSubmittedTerm, setImageUrl. cbn.
  rewrite (resolveImageUrl_Throw _ Hw). reflexivity.
Qed.

Lemma step_OnChange (value : jsstring) (p : Page) :
  step tbl (OnChange value) p =
  {| app := {| searchTerm := value; submittedTerm := submittedTerm (app p);
               imageUrl := imageUrl (app p) |};
     display := display p |}.
Proof.
  unfold step, dispatch, setSearchTerm, useEffect. cbn.
  rewrite sameValue_refl. reflexivity.
Qed.

(** Typing [raw] and submitting it, in the three cases of [handleSubmit]. *)
Lemma submit_blank (raw : jsstring) (p : Page) :
  cleanTermOf tbl raw = [] ->
  submit tbl raw p =
  {| app := {| searchTerm := raw; submittedTerm := []; imageUrl := None |};
     display := useEffect (imageUrl (app p)) None (display p) |}
  /\ submitOutcome tbl raw p = Normal tt.
Proof.
  intros H. unfold submit, submitOutcome, outcome. rewrite step_OnChange.
  unfold step, dispatch. cbn [app display].
  rewrite handleSubmit_blank by exact H. cbn. auto.
Qed.

Lemma submit_resolved (raw u : jsstring) (p : Page) :
  cleanTermOf tbl raw <> [] ->
  resolveImageUrl (cleanTermOf tbl raw) = Normal u ->
  submit tbl raw p =
  {| app := {| searchTerm := raw; submittedTerm := cleanTermOf tbl raw;
               imageUrl := Some u |};
     display := useEffect (imageUrl (app p)) (Some u) (display p) |}
  /\ submitOutcome tbl raw p = Normal tt.
Proof.
  intros Hne Hu. unfold submit, submitOutcome, outcome. rewrite step_OnChange.
  unfold step, dispatch. cbn [app display].
  rewrite (handleSubmit_resolved _ u) by assumption. cbn. auto.
Qed.

Lemma submit_raises (raw : jsstring) (p : Page) :
  cleanTermOf tbl raw <> [] ->
  isWellFormed (cleanTermOf tbl raw) = false ->
  submit tbl raw p =
  {| app := {| searchTerm := raw; submittedTerm := cleanTermOf tbl raw;
               imageUrl := imageUrl (app p) |};
     display := display p |}
  /\ submitOutcome tbl raw p = Throw URIError.
Proof.
  intros Hne Hw. unfold submit, submitOutcome, outcome. rewrite step_OnChange.
  unfold step, dispatch. cbn [app display].
  rewrite handleSubmit_raises by assumption. cbn.
  unfold useEffect. rewrite sameValue_refl. auto.
Qed.

(** The same three cases for the submit event alone. *)
Lemma step_OnSubmit_cases (p : Page) :
  (cleanTermOf tbl (searchTerm (app p)) = [] /\
   step tbl OnSubmit p =
   {| app := {| searchTerm := searchTerm (app p); submittedTerm := []; imageUrl := None |};
      display := useEffect (imageUrl (app p)) None (display p) |})
  \/ (exists e, cleanTermOf tbl (searchTerm (app p)) <> [] /\
        Encode (cleanTermOf tbl (searchTerm (app p))) = Normal e /\
        step tbl OnSubmit p =
        {| app := {| searchTerm := searchTerm (app p);
                     submittedTerm := cleanTermOf tbl (searchTerm (app p));
                     imageUrl := Some (basePath ++ e ++ pngSuffix) |};
           display := useEffect (imageUrl (app p))
                        (Some (basePath ++ e ++ pngSuffix)) (display p) |})
  \/ (cleanTermOf tbl (searchTerm (app p)) <> [] /\
      isWellFormed (cleanTermOf tbl (searchTerm (app p))) = false /\
      step tbl OnSubmit p =
      {| app := {| searchTerm := searchTerm (app p);
                   submittedTerm := cleanTermOf tbl (searchTerm (app p));
                   imageUrl := imageUrl (app p) |};
         display := display p |}).
Proof.
  destruct (jsstring_eq_dec (cleanTermOf tbl (searchTerm (app p))) []) as [E|NE].
  - left. split; [exact E|]. unfold step, dispatch.
    rewrite handleSubmit_blank by exact E. reflexivity.
  - right. destruct (isWellFormed (cleanTermOf tbl (searchTerm (app p)))) eqn:Hw.
    + left. destruct (resolveImageUrl_wellFormed _ Hw) as [e He]. exists e.
      split; [exact NE|]. split; [exact He|]. unfold step, dispatch.
      rewrite (handleSubmit_resolved _ (basePath ++ e ++ pngSuffix)); [reflexivity|exact NE|].
      apply resolveImageUrl_Normal. eauto.
    + right. split; [exact NE|]. split; [reflexivity|]. unfold step, dispatch.
      rewrite handleSubmit_raises by assumption. cbn [fst app display imageUrl].
      unfold useEffect. rewrite sameValue_refl. reflexivity.
Qed.

(** *** What holds of every reachable page *)

Lemma settled_mounted : settled mounted.
Proof.
  unfold settled, mounted, imageUrlEffect. cbn.
  repeat split; auto; discriminate.
Qed.

Lemma settled_imgMounted (p : Page) :
  settled p -> imgMounted p = true -> imageUrl (app p) <> None.
Proof.
  intros (_ & H2 & _) Hm E. specialize (H2 E).
  unfold imgMounted, view, ImageDisplay in Hm. rewrite E, H2 in Hm. discriminate.
Qed.

Lemma settled_useEffect (a : AppState) (previous : option jsstring) (d : DisplayState) :
  settled {| app := {| searchTerm := searchTerm a; submittedTerm := submittedTerm a;
                       imageUrl := previous |}; display := d |} ->
  (truthyOpt (imageUrl a) = false -> imageUrl a = None) ->
  settled {| app := a; display := useEffect previous (imageUrl a) d |}.
Proof.
  intros (H1 & H2 & H3 & H4) Ha. cbn [app display imageUrl] in *.
  unfold useEffect. destruct (sameValue previous (imageUrl a)) eqn:Hs.
  - apply sameValue_true in Hs. subst previous.
    unfold settled. cbn [app display]. auto.
  - unfold settled, imageUrlEffect. cbn [app display].
    destruct (truthyOpt (imageUrl a)) eqn:Ht; cbn [error isLoading].
    + repeat split; auto; try discriminate.
      * intros E. rewrite E in Ht. discriminate.
      * intros E. rewrite E in Ht. discriminate.
    + repeat split; auto; discriminate.
Qed.

Lemma settled_step (ev : event) (p : Page) : settled p -> settled (step tbl ev p).
Proof.
  intros Hp. destruct ev as [value| |src|src].
  - rewrite step_OnChange. exact Hp.
  - destruct p as [[raw sub url] d].
    destruct (step_OnSubmit_cases {| app := {| searchTerm := raw; submittedTerm := sub;
                                               imageUrl := url |}; display := d |})
      as [[_ ->]|[(e & _ & _ & ->)|(_ & _ & ->)]]; cbn [app display searchTerm imageUrl].
    + apply (settled_useEffect {| searchTerm := raw; submittedTerm := []; imageUrl := None |}).
      * exact Hp.
      * reflexivity.
    + apply (settled_useEffect {| searchTerm := raw; submittedTerm := cleanTermOf tbl raw;
                                  imageUrl := Some (basePath ++ e ++ pngSuffix) |}).
      * exact Hp.
      * cbn. discriminate.
    + exact Hp.
  - unfold step, dispatch. destruct (imgMounted p) eqn:Hm; [|exact Hp].
    pose proof (settled_imgMounted p Hp Hm) as Hu.
    destruct Hp as (H1 & H2 & H3 & H4).
    unfold settled, handleImageError. cbn.
    repeat split; auto; try discriminate. intros E. contradiction.
  - unfold step, dispatch. destruct (imgMounted p) eqn:Hm; [|exact Hp].
    pose proof (settled_imgMounted p Hp Hm) as Hu.
    destruct Hp as (H1 & H2 & H3 & H4).
    unfold settled, handleImageLoad. cbn.
    repeat split; auto; try discriminate. intros E. contradiction.
Qed.

Lemma reachable_settled (p : Page) : reachable tbl p -> settled p.
Proof.
  induction 1 as [|ev p _ IH]; [apply settled_mounted | apply settled_step, IH].
Qed.

End Controller.

End AppFacts.

Import AppFacts.

(** ** Properties of the search form *)

Lemma reachable_run (tbl : LowerTable) (evs : list event) (p : Page) :
  reachable tbl p -> reachable tbl (run tbl evs p).
Proof.
  revert p. induction evs as [|ev evs IH]; intros p Hp; [exact Hp|].
  cbn [run fold_left]. apply IH. constructor. exact Hp.
Qed.

Lemma phase_Pending_isLoading (p : Page) :
  phase p = Pending -> isLoading (display p) = true /\ imgMounted p = true.
Proof.
  unfold phase, imgMounted, view, ImageDisplay.
  destruct (negb (truthyOpt (imageUrl (app p))) && negb (truthyOpt (error (display p))));
    cbn [phaseOf]; [discriminate|].
  destruct (isLoading (display p)); [auto|].
  destruct (truthyOpt (error (display p)) && negb false); [|discriminate].
  destruct (error (display p)); discriminate.
Qed.

Lemma noSubmit_not_loading (tbl : LowerTable) (evs : list event) (p : Page) :
  noSubmit evs = true -> isLoading (display p) = false ->
  isLoading (display (run tbl evs p)) = false.
Proof.
  revert p. induction evs as [|ev evs IH]; intros p Hn Hl; [exact Hl|].
  cbn [noSubmit forallb] in Hn. apply andb_true_iff in Hn. destruct Hn as [Hev Hn].
  cbn [run fold_left]. apply IH; [exact Hn|].
  destruct ev as [value| |src|src]; [|discriminate| |].
  - rewrite step_OnChange. exact Hl.
  - unfold step, dispatch. destruct (imgMounted p); [reflexivity|exact Hl].
  - unfold step, dispatch. destruct (imgMounted p); [reflexivity|exact Hl].
Qed.

(** C2. From every reachable page, submitting a term whose normalized form
    is empty (the empty term, or white space only) clears the image
    reference and the submitted term, leaves no error and no spinner, shows
    the placeholder (state Idle), and raises nothing. *)
Theorem blank_submission_resets (tbl : LowerTable) (raw : jsstring) (p : Page) :
  reachable tbl p ->
  cleanTermOf tbl raw = [] ->
  imageUrl (app (submit tbl raw p)) = None
  /\ submittedTerm (app (submit tbl raw p)) = []
  /\ display (submit tbl raw p) = {| error := None; isLoading := false |}
  /\ view (submit tbl raw p) = Placeholder
  /\ phase (submit tbl raw p) = Idle
  /\ submitOutcome tbl raw p = Normal tt.
Proof.
  intros Hp Hraw. destruct (submit_blank tbl raw p Hraw) as [-> ->].
  apply reachable_settled in Hp. destruct Hp as (_ & H2 & _).
  assert (Hd : useEffect (imageUrl (app p)) None (display p)
               = {| error := None; isLoading := false |}).
  { unfold useEffect. destruct (sameValue (imageUrl (app p)) None) eqn:Hs.
    - apply sameValue_true in Hs. auto.
    - reflexivity. }
  unfold phase, view. cbn [app display imageUrl submittedTerm]. rewrite Hd.
  repeat split; reflexivity.
Qed.

Lemma blank_submission_resets_witness :
  reachable sampleLower (failedCasa sampleLower)
  /\ cleanTermOf sampleLower [0x20; 0x09; 0xA0] = []
  /\ phase (failedCasa sampleLower) = Failure
  /\ phase (submit sampleLower [0x20; 0x09; 0xA0] (failedCasa sampleLower)) = Idle
  /\ submitOutcome sampleLower [0x20; 0x09; 0xA0] (failedCasa sampleLower) = Normal tt.
Proof.
  assert (Hr : reachable sampleLower (failedCasa sampleLower)) by (repeat constructor).
  assert (Hc : cleanTermOf sampleLower [0x20; 0x09; 0xA0] = []) by reflexivity.
  split; [exact Hr|]. split; [exact Hc|]. split; [reflexivity|].
  pose proof (blank_submission_resets sampleLower [0x20; 0x09; 0xA0]
                (failedCasa sampleLower) Hr Hc)
    as (_ & _ & _ & _ & Hphase & Hout).
  split; assumption.
Defined.

(** C3. Submitting "casa", or "Casa " with its capital and trailing space,
    or any input that normalizes to "casa", stores the term "casa" and the
    reference https://fundacioncnse-dilse.org/bddilse/images/stories/casa.png
    without raising.  On the page of the first render, and on every page
    whose reference is another one, the display is then loading with no
    error (state Pending). *)
Theorem casa_submission (tbl : LowerTable) (raw : jsstring) (p : Page) :
  raw = lit "casa" \/ raw = lit "Casa " \/ cleanTermOf tbl raw = casa ->
  cleanTermOf tbl raw = casa
  /\ imageUrl (app (submit tbl raw p)) = Some casaUrl
  /\ submittedTerm (app (submit tbl raw p)) = casa
  /\ submitOutcome tbl raw p = Normal tt
  /\ phase (submit tbl raw mounted) = Pending
  /\ (imageUrl (app p) <> Some casaUrl ->
      display (submit tbl raw p) = {| error := None; isLoading := true |}
      /\ phase (submit tbl raw p) = Pending).
Proof.
  intros H.
  assert (Hc : cleanTermOf tbl raw = casa)
    by (destruct H as [->|[->|H]]; [reflexivity|reflexivity|exact H]).
  assert (Hne : cleanTermOf tbl raw <> []) by (rewrite Hc; discriminate).
  assert (Hr : resolveImageUrl (cleanTermOf tbl raw) = Normal casaUrl)
    by (rewrite Hc; reflexivity).
  split; [exact Hc|].
  destruct (submit_resolved tbl raw casaUrl mounted Hne Hr) as [-> _].
  destruct (submit_resolved tbl raw casaUrl p Hne Hr) as [-> ->].
  cbn [app display imageUrl submittedTerm].
  split; [reflexivity|]. split; [exact Hc|]. split; [reflexivity|].
  split; [reflexivity|].
  intros Hnew. apply sameValue_false in Hnew.
  unfold phase, view, useEffect. cbn [app display imageUrl]. rewrite Hnew.
  split; reflexivity.
Qed.

Lemma casa_submission_witness :
  (lit "Casa " = lit "casa" \/ lit "Casa " = lit "Casa "
   \/ cleanTermOf sampleLower (lit "Casa ") = casa)
  /\ imageUrl (app mounted) <> Some casaUrl
  /\ imageUrl (app (submit sampleLower (lit "Casa ") mounted)) = Some casaUrl
  /\ phase (submit sampleLower (lit "Casa ") mounted) = Pending.
Proof.
  assert (H : lit "Casa " = lit "casa" \/ lit "Casa " = lit "Casa "
              \/ cleanTermOf sampleLower (lit "Casa ") = casa)
    by (right; left; reflexivity).
  assert (Hn : imageUrl (app mounted) <> Some casaUrl) by discriminate.
  split; [exact H|]. split; [exact Hn|].
  pose proof (casa_submission sampleLower (lit "Casa ") mounted H)
    as (_ & Hu & _ & _ & _ & Hp).
  split; [exact Hu|]. exact (proj2 (Hp Hn)).
Defined.

(** C4. A page in state Pending that receives a load-failure notification
    moves to state Failure; the error box it shows holds the message of
    [handleImageError], which contains the submitted term between quotation
    marks; the state of [App] is untouched. *)
Theorem load_failure_names_term (tbl : LowerTable) (p : Page) (src : jsstring) :
  phase p = Pending ->
  phase (step tbl (OnError src) p) = Failure
  /\ app (step tbl (OnError src) p) = app p
  /\ errorBoxOf (view (step tbl (OnError src) p))
     = Some (notFoundMessage (submittedTerm (app p)))
  /\ exists pre post,
       notFoundMessage (submittedTerm (app p))
       = pre ++ [0x22] ++ submittedTerm (app p) ++ [0x22] ++ post.
Proof.
  intros H. apply phase_Pending_isLoading in H. destruct H as [_ Hm].
  unfold step, dispatch. rewrite Hm. cbn [fst app display].
  unfold phase, view, ImageDisplay, handleImageError. cbn [app display error isLoading].
  rewrite andb_false_r. cbn.
  repeat split.
  exists (lit "No se encontr" ++ [0xF3] ++ lit " la imagen para la palabra: ").
  exists (lit ". Por favor, verifica la ortograf" ++ [0xED] ++ lit "a.").
  unfold notFoundMessage. rewrite <- !app_assoc. reflexivity.
Qed.

Lemma load_failure_names_term_witness :
  phase (pendingCasa sampleLower) = Pending
  /\ phase (step sampleLower (OnError casaUrl) (pendingCasa sampleLower)) = Failure
  /\ errorBoxOf (view (step sampleLower (OnError casaUrl) (pendingCasa sampleLower)))
     = Some (notFoundMessage casa).
Proof.
  assert (H : phase (pendingCasa sampleLower) = Pending) by reflexivity.
  split; [exact H|].
  pose proof (load_failure_names_term sampleLower (pendingCasa sampleLower) casaUrl H)
    as (Hp & _ & Hb & _).
  split; [exact Hp | exact Hb].
Defined.

(** C9. A reachable page in state Pending that receives a load-success
    notification moves to state Success, and no sequence of events without a
    submission brings it back to Pending. *)
Theorem load_success_is_final (tbl : LowerTable) (p : Page) (src : jsstring)
    (evs : list event) :
  reachable tbl p ->
  phase p = Pending ->
  noSubmit evs = true ->
  phase (step tbl (OnLoad src) p) = Success
  /\ phase (run tbl evs (step tbl (OnLoad src) p)) <> Pending.
Proof.
  intros Hr Hp Hn. apply reachable_settled in Hr.
  destruct (phase_Pending_isLoading p Hp) as [Hl Hm].
  destruct Hr as (H1 & _ & H3 & _). destruct (H3 Hl) as [He Hu].
  assert (Hs : step tbl (OnLoad src) p
               = {| app := app p; display := {| error := None; isLoading := false |} |}).
  { unfold step, dispatch. rewrite Hm. unfold handleImageLoad. rewrite He. reflexivity. }
  split.
  - rewrite Hs. unfold phase, view, ImageDisplay. cbn [app display error isLoading].
    destruct (truthyOpt (imageUrl (app p))) eqn:Ht; [reflexivity|].
    exfalso. auto.
  - intros Hq. apply phase_Pending_isLoading in Hq. destruct Hq as [Hq _].
    rewrite (noSubmit_not_loading tbl evs _ Hn) in Hq; [discriminate|].
    rewrite Hs. reflexivity.
Qed.

Lemma load_success_is_final_witness :
  reachable sampleLower (pendingCasa sampleLower)
  /\ phase (pendingCasa sampleLower) = Pending
  /\ noSubmit [OnChange perro; OnLoad casaUrl; OnError casaUrl] = true
  /\ phase (step sampleLower (OnLoad casaUrl) (pendingCasa sampleLower)) = Success
  /\ phase (run sampleLower [OnChange perro; OnLoad casaUrl; OnError casaUrl]
              (step sampleLower (OnLoad casaUrl) (pendingCasa sampleLower))) <> Pending.
Proof.
  assert (Hr : reachable sampleLower (pendingCasa sampleLower)) by (repeat constructor).
  assert (Hp : phase (pendingCasa sampleLower) = Pending) by reflexivity.
  assert (Hn : noSubmit [OnChange perro; OnLoad casaUrl; OnError casaUrl] = true)
    by reflexivity.
  split; [exact Hr|]. split; [exact Hp|]. split; [exact Hn|].
  exact (load_success_is_final sampleLower (pendingCasa sampleLower) casaUrl
           [OnChange perro; OnLoad casaUrl; OnError casaUrl] Hr Hp Hn).
Defined.

(** C10. A submission that leaves the image reference equal to the current
    one leaves the error and the loading flag of the display as they were,
    and with them the visual state; re-submitting the term of a coherent
    page that has a reference is such a submission, so after a Failure it
    does not bring Pending back. *)
Theorem same_reference_keeps_display (tbl : LowerTable) (raw : jsstring) (p : Page) :
  imageUrl (app (submit tbl raw p)) = imageUrl (app p)
  \/ (coherent p /\ imageUrl (app p) <> None
      /\ cleanTermOf tbl raw = submittedTerm (app p) /\ cleanTermOf tbl raw <> []) ->
  imageUrl (app (submit tbl raw p)) = imageUrl (app p)
  /\ display (submit tbl raw p) = display p
  /\ phase (submit tbl raw p) = phase p
  /\ (phase p = Failure -> phase (submit tbl raw p) <> Pending).
Proof.
  intros H.
  assert (Hu : imageUrl (app (submit tbl raw p)) = imageUrl (app p)).
  { destruct H as [H|(Hc & Hn & Ht & Hne)]; [exact H|].
    unfold coherent in Hc. destruct (imageUrl (app p)) as [u|] eqn:E; [|congruence].
    rewrite <- Ht in Hc.
    destruct (submit_resolved tbl raw u p Hne Hc) as [-> _]. reflexivity. }
  assert (Hd : display (submit tbl raw p) = display p).
  { unfold submit in *. rewrite step_OnChange in *.
    unfold step, dispatch in *. cbn [app display imageUrl] in *.
    destruct (handleSubmit tbl _) as [a c]. cbn [fst app display] in *.
    unfold useEffect. rewrite <- Hu, sameValue_refl. reflexivity. }
  assert (Hp : phase (submit tbl raw p) = phase p).
  { unfold phase, view, ImageDisplay. rewrite Hu, Hd.
    destruct (negb (truthyOpt (imageUrl (app p))) && negb (truthyOpt (error (display p))));
      reflexivity. }
  repeat split; auto. intros Hf. rewrite Hp, Hf. discriminate.
Qed.

Lemma same_reference_keeps_display_witness :
  (imageUrl (app (submit sampleLower (lit "Casa") (failedCasa sampleLower)))
   = imageUrl (app (failedCasa sampleLower))
   \/ (coherent (failedCasa sampleLower) /\ imageUrl (app (failedCasa sampleLower)) <> None
       /\ cleanTermOf sampleLower (lit "Casa") = submittedTerm (app (failedCasa sampleLower))
       /\ cleanTermOf sampleLower (lit "Casa") <> []))
  /\ phase (failedCasa sampleLower) = Failure
  /\ phase (submit sampleLower (lit "Casa") (failedCasa sampleLower)) = Failure
  /\ display (submit sampleLower (lit "Casa") (failedCasa sampleLower))
     = display (failedCasa sampleLower).
Proof.
  assert (H : imageUrl (app (submit sampleLower (lit "Casa") (failedCasa sampleLower)))
              = imageUrl (app (failedCasa sampleLower))
              \/ (coherent (failedCasa sampleLower)
                  /\ imageUrl (app (failedCasa sampleLower)) <> None
                  /\ cleanTermOf sampleLower (lit "Casa")
                     = submittedTerm (app (failedCasa sampleLower))
                  /\ cleanTermOf sampleLower (lit "Casa") <> [])).
  { right. split; [reflexivity|]. split; [discriminate|]. split; [reflexivity|discriminate]. }
  split; [exact H|]. split; [reflexivity|].
  pose proof (same_reference_keeps_display sampleLower (lit "Casa") (failedCasa sampleLower) H)
    as (_ & Hd & Hp & _).
  split; [rewrite Hp; reflexivity | exact Hd].
Defined.

(** C7, as the code has it.  The resolver returns a URL, the base path
    followed by a segment and ".png", for every string without an unpaired
    surrogate (the empty string and white space included); on a string that
    holds an unpaired surrogate [encodeURIComponent] raises URIError. *)
Theorem resolver_total_on_well_formed (t : jsstring) :
  (isWellFormed t = true ->
   exists seg, resolveImageUrl t = Normal (basePath ++ seg ++ pngSuffix))
  /\ (isWellFormed t = false -> resolveImageUrl t = Throw URIError).
Proof.
  split.
  - intros H. destruct (resolveImageUrl_wellFormed t H) as [e He].
    exists e. apply resolveImageUrl_Normal. eauto.
  - apply resolveImageUrl_Throw.
Qed.

Lemma resolver_total_on_well_formed_witness :
  (isWellFormed [] = true
   /\ exists seg, resolveImageUrl [] = Normal (basePath ++ seg ++ pngSuffix))
  /\ (isWellFormed [0x20; 0xD83D; 0xDE00] = true
      /\ exists seg, resolveImageUrl [0x20; 0xD83D; 0xDE00]
                     = Normal (basePath ++ seg ++ pngSuffix))
  /\ (isWellFormed [0xDE00; 0xD83D] = false
      /\ resolveImageUrl [0xDE00; 0xD83D] = Throw URIError).
Proof.
  split; [|split].
  - split; [reflexivity|].
    exact (proj1 (resolver_total_on_well_formed []) eq_refl).
  - split; [reflexivity|].
    exact (proj1 (resolver_total_on_well_formed [0x20; 0xD83D; 0xDE00]) eq_refl).
  - split; [reflexivity|].
    exact (proj2 (resolver_total_on_well_formed [0xDE00; 0xD83D]) eq_refl).
Defined.

(** C7 fails as stated: on the one-unit string U+D800 the resolver raises
    URIError and returns no URL. *)
Lemma resolver_raises_on_lone_surrogate :
  resolveImageUrl [0xD800] = Throw URIError
  /\ ~ exists url, resolveImageUrl [0xD800] = Normal url.
Proof.
  split; [reflexivity|]. intros [url H]. discriminate.
Qed.

(** C1, as the code has it.  For every input whose normalized term
    [s.trim().toLowerCase()] is not empty and is a string of 16-bit code
    units without an unpaired surrogate, the submission raises nothing and
    stores the base path followed by one percent-encoded segment (unescaped
    characters and %XY triplets only, so no slash) and ".png";
    percent-decoding the segment gives back the normalized term. *)
Theorem submitted_url_round_trip (tbl : LowerTable) (raw : jsstring) (p : Page) :
  cleanTermOf tbl raw <> [] ->
  isScalarString (cleanTermOf tbl raw) = true ->
  exists seg,
    imageUrl (app (submit tbl raw p)) = Some (basePath ++ seg ++ pngSuffix)
    /\ isPercentEncoded seg = true
    /\ ~ In 0x2F seg
    /\ percentDecode seg = Some (cleanTermOf tbl raw)
    /\ submitOutcome tbl raw p = Normal tt.
Proof.
  intros Hne Hs. pose proof Hs as Hs'. unfold isScalarString in Hs'.
  apply andb_true_iff in Hs'. destruct Hs' as [Hu Hw].
  destruct (resolveImageUrl_wellFormed _ Hw) as [seg He]. exists seg.
  destruct (submit_resolved tbl raw (basePath ++ seg ++ pngSuffix) p Hne) as [-> ->].
  { apply resolveImageUrl_Normal. eauto. }
  pose proof (Encode_isPercentEncoded _ Hu seg He) as Hp.
  cbn [app imageUrl]. repeat split.
  - exact Hp.
  - apply isPercentEncoded_no_slash, Hp.
  - apply percentDecode_Encode; assumption.
Qed.

Lemma submitted_url_round_trip_witness :
  cleanTermOf sampleLower [0x20; 0xD1; 0x41; 0x20; 0x2F; 0x3A3; 0xD83D; 0xDE00; 0x0A]
    = [0xF1; 0x61; 0x20; 0x2F; 0x3C3; 0xD83D; 0xDE00]
  /\ isScalarString [0xF1; 0x61; 0x20; 0x2F; 0x3C3; 0xD83D; 0xDE00] = true
  /\ exists seg,
       imageUrl (app (submit sampleLower
                        [0x20; 0xD1; 0x41; 0x20; 0x2F; 0x3A3; 0xD83D; 0xDE00; 0x0A] mounted))
       = Some (basePath ++ seg ++ pngSuffix)
       /\ ~ In 0x2F seg
       /\ percentDecode seg = Some [0xF1; 0x61; 0x20; 0x2F; 0x3C3; 0xD83D; 0xDE00].
Proof.
  split; [reflexivity|]. split; [reflexivity|].
  destruct (submitted_url_round_trip sampleLower
              [0x20; 0xD1; 0x41; 0x20; 0x2F; 0x3A3; 0xD83D; 0xDE00; 0x0A] mounted)
    as (seg & Hu & _ & Hn & Hd & _).
  - discriminate.
  - reflexivity.
  - exists seg. split; [exact Hu|]. split; [exact Hn|exact Hd].
Defined.

(** C1 fails as stated, whatever the casing table: the non-empty input " "
    yields no URL at all (its normalized term is empty), and the non-empty
    input U+D800 yields none either (the resolver raises). *)
Lemma non_empty_input_without_url :
  ~ (exists tbl : LowerTable,
       lit " " <> [] ->
       exists seg,
         imageUrl (app (submit tbl (lit " ") mounted)) = Some (basePath ++ seg ++ pngSuffix)
         /\ percentDecode seg = Some (trim (toLowerCase tbl (lit " "))))
  /\ ~ (exists tbl : LowerTable,
          [0xD800] <> [] ->
          exists seg,
            imageUrl (app (submit tbl [0xD800] mounted)) = Some (basePath ++ seg ++ pngSuffix)
            /\ percentDecode seg = Some (trim (toLowerCase tbl [0xD800]))).
Proof.
  split; intros [tbl H]; destruct H as (seg & Hu & _); discriminate.
Qed.

Lemma resolveImageUrl_injective (t1 t2 u : jsstring) :
  isCodeUnits t1 = true -> isCodeUnits t2 = true ->
  resolveImageUrl t1 = Normal u -> resolveImageUrl t2 = Normal u -> t1 = t2.
Proof.
  intros H1 H2 E1 E2.
  apply resolveImageUrl_Normal in E1, E2.
  destruct E1 as (e1 & E1 & ->), E2 as (e2 & E2 & Hu).
  apply app_inv_head, app_inv_tail in Hu. subst e2.
  pose proof (Encode_isWellFormed t1) as W1. rewrite E1 in W1.
  pose proof (Encode_isWellFormed t2) as W2. rewrite E2 in W2.
  apply (Encode_injective t1 t2 e1); auto; unfold isScalarString;
    apply andb_true_iff; auto.
Qed.

(** C5, as the code has it.  Take any page that is coherent (its reference,
    when it has one, is the one resolved from its submitted term, as on
    every page reached without a raising submission), in whichever of the
    four states.  Submitting a normalized term that is not empty, is a
    string of 16-bit code units without an unpaired surrogate and differs
    from the current submitted term stores the new term and its reference,
    clears the error and sets the loading flag: the page is Pending. *)
Theorem new_term_reenters_pending (tbl : LowerTable) (raw : jsstring) (p : Page) :
  coherent p ->
  isCodeUnits (submittedTerm (app p)) = true ->
  isScalarString (cleanTermOf tbl raw) = true ->
  cleanTermOf tbl raw <> [] ->
  cleanTermOf tbl raw <> submittedTerm (app p) ->
  display (submit tbl raw p) = {| error := None; isLoading := true |}
  /\ phase (submit tbl raw p) = Pending
  /\ submittedTerm (app (submit tbl raw p)) = cleanTermOf tbl raw
  /\ exists u, imageUrl (app (submit tbl raw p)) = Some u
               /\ resolveImageUrl (cleanTermOf tbl raw) = Normal u.
Proof.
  intros Hc Hsub Hs Hne Hdiff. pose proof Hs as Hs'. unfold isScalarString in Hs'.
  apply andb_true_iff in Hs'. destruct Hs' as [Hu Hw].
  destruct (resolveImageUrl_wellFormed _ Hw) as [seg He].
  assert (Hr : resolveImageUrl (cleanTermOf tbl raw) = Normal (basePath ++ seg ++ pngSuffix))
    by (apply resolveImageUrl_Normal; eauto).
  destruct (submit_resolved tbl raw _ p Hne Hr) as [-> _].
  unfold useEffect.
  match goal with
  | |- context [sameValue ?a ?b] => replace (sameValue a b) with false
  end.
  2: { symmetry. apply sameValue_false. intros E. unfold coherent in Hc. rewrite E in Hc.
       apply Hdiff. apply (resolveImageUrl_injective _ _ _ Hu Hsub Hr Hc). }
  unfold phase, view. cbn [app display imageUrl submittedTerm].
  repeat split; eauto.
Qed.

Lemma new_term_reenters_pending_witness :
  coherent (failedCasa sampleLower)
  /\ phase (failedCasa sampleLower) = Failure
  /\ cleanTermOf sampleLower (lit " Perro") = perro
  /\ phase (submit sampleLower (lit " Perro") (failedCasa sampleLower)) = Pending
  /\ display (submit sampleLower (lit " Perro") (failedCasa sampleLower))
     = {| error := None; isLoading := true |}.
Proof.
  assert (Hc : coherent (failedCasa sampleLower)) by reflexivity.
  split; [exact Hc|]. split; [reflexivity|]. split; [reflexivity|].
  destruct (new_term_reenters_pending sampleLower (lit " Perro") (failedCasa sampleLower) Hc)
    as (Hd & Hp & _).
  - reflexivity.
  - reflexivity.
  - discriminate.
  - discriminate.
  - split; [exact Hp | exact Hd].
Defined.

(** C5 fails as stated, whatever the casing table: on the reachable page
    that shows the failure for "casa", the new term U+D800 is not empty and
    differs from "casa", yet submitting it does not give Pending (the
    resolver raises, the reference and the error stay). *)
Lemma new_term_may_stay_failed :
  ~ exists tbl : LowerTable,
      reachable tbl (failedCasa tbl) ->
      cleanTermOf tbl [0xD800] <> [] ->
      cleanTermOf tbl [0xD800] <> submittedTerm (app (failedCasa tbl)) ->
      phase (submit tbl [0xD800] (failedCasa tbl)) = Pending.
Proof.
  intros [tbl H].
  assert (Hp : phase (submit tbl [0xD800] (failedCasa tbl)) = Pending).
  { apply H; [repeat constructor | discriminate | discriminate]. }
  discriminate.
Qed.

(** C6, as the code has it.  When a second term is submitted on a page whose
    reference differs from the second one (in particular while the first
    image is still loading), the page is Pending for the second reference;
    the handlers do not look at which fetch a notification reports: any
    success notification, the first load's included, gives Success, any
    failure notification gives Failure with the message naming the second
    term, and an error so recorded stays when the second load succeeds
    afterwards. *)
Theorem late_notification_is_applied (tbl : LowerTable) (raw2 u2 src : jsstring)
    (p1 : Page) :
  cleanTermOf tbl raw2 <> [] ->
  resolveImageUrl (cleanTermOf tbl raw2) = Normal u2 ->
  imageUrl (app p1) <> Some u2 ->
  phase (submit tbl raw2 p1) = Pending
  /\ imgSrcOf (view (submit tbl raw2 p1)) = Some u2
  /\ phase (step tbl (OnLoad src) (submit tbl raw2 p1)) = Success
  /\ phase (step tbl (OnError src) (submit tbl raw2 p1)) = Failure
  /\ errorBoxOf (view (step tbl (OnError src) (submit tbl raw2 p1)))
     = Some (notFoundMessage (cleanTermOf tbl raw2))
  /\ phase (run tbl [OnError src; OnLoad u2] (submit tbl raw2 p1)) = Failure.
Proof.
  intros Hne Hr Hnew.
  destruct (submit_resolved tbl raw2 u2 p1 Hne Hr) as [-> _].
  apply sameValue_false in Hnew. unfold useEffect. rewrite Hnew.
  apply resolveImageUrl_Normal in Hr. destruct Hr as (e & _ & ->).
  unfold run, step, dispatch, imgMounted, phase, view, ImageDisplay.
  cbn. repeat split; reflexivity.
Qed.

Lemma late_notification_is_applied_witness :
  phase (pendingCasa sampleLower) = Pending
  /\ cleanTermOf sampleLower perro <> []
  /\ resolveImageUrl (cleanTermOf sampleLower perro) = Normal perroUrl
  /\ imageUrl (app (pendingCasa sampleLower)) <> Some perroUrl
  /\ phase (submit sampleLower perro (pendingCasa sampleLower)) = Pending
  /\ phase (step sampleLower (OnError casaUrl)
              (submit sampleLower perro (pendingCasa sampleLower))) = Failure
  /\ errorBoxOf (view (step sampleLower (OnError casaUrl)
                         (submit sampleLower perro (pendingCasa sampleLower))))
     = Some (notFoundMessage perro).
Proof.
  assert (H1 : cleanTermOf sampleLower perro <> []) by discriminate.
  assert (H2 : resolveImageUrl (cleanTermOf sampleLower perro) = Normal perroUrl)
    by reflexivity.
  assert (H3 : imageUrl (app (pendingCasa sampleLower)) <> Some perroUrl) by discriminate.
  split; [reflexivity|]. split; [exact H1|]. split; [exact H2|]. split; [exact H3|].
  pose proof (late_notification_is_applied sampleLower perro perroUrl casaUrl
                (pendingCasa sampleLower) H1 H2 H3) as (Hp & _ & _ & Hf & Hb & _).
  split; [exact Hp|]. split; [exact Hf | exact Hb].
Defined.

(** C6 fails as stated, whatever the casing table: "casa" is submitted, then
    "perro" while "casa" is loading; if the failure of the first load
    arrives before the success of the second, the page ends in Failure,
    whereas the second load alone ends in Success. *)
Lemma first_outcome_changes_final_state :
  ~ exists tbl : LowerTable,
      phase (run tbl [OnError casaUrl; OnLoad perroUrl]
               (submit tbl perro (pendingCasa tbl)))
      = phase (run tbl [OnLoad perroUrl] (submit tbl perro (pendingCasa tbl))).
Proof.
  intros [tbl H]. discriminate.
Qed.

(** The reference of a page follows the last settled term along any events. *)
Lemma follows_run (tbl : LowerTable) (evs : list event) :
  forall (p : Page) (last : jsstring),
  follows p last ->
  follows (run tbl evs p) (lastSettled tbl (searchTerm (app p)) last evs).
Proof.
  induction evs as [|ev evs IH]; intros p last Hf; [exact Hf|].
  cbn [run fold_left]. change (fold_left (fun q e => step tbl e q) evs (step tbl ev p))
    with (run tbl evs (step tbl ev p)).
  destruct ev as [value| |src|src]; cbn [lastSettled].
  - specialize (IH (step tbl (OnChange value) p) last).
    rewrite step_OnChange in *. cbn [app searchTerm] in IH. apply IH. exact Hf.
  - assert (Hs : searchTerm (app (step tbl OnSubmit p)) = searchTerm (app p))
      by (destruct (step_OnSubmit_cases tbl p)
            as [[_ E]|[(e & _ & _ & E)|(_ & _ & E)]]; rewrite E; reflexivity).
    specialize (IH (step tbl OnSubmit p)
                  (if isWellFormed (cleanTermOf tbl (searchTerm (app p)))
                   then cleanTermOf tbl (searchTerm (app p)) else last)).
    rewrite Hs in IH. apply IH. unfold follows.
    destruct (step_OnSubmit_cases tbl p) as [[Hb E]|[(e & Hne & He & E)|(Hne & Hw & E)]];
      rewrite E; cbn [app imageUrl].
    + rewrite Hb. reflexivity.
    + pose proof (Encode_isWellFormed (cleanTermOf tbl (searchTerm (app p)))) as Hw.
      rewrite He in Hw. rewrite Hw.
      split; [exact Hne|]. apply resolveImageUrl_Normal. eauto.
    + rewrite Hw. exact Hf.
  - assert (E : app (step tbl (OnError src) p) = app p)
      by (unfold step, dispatch; destruct (imgMounted p); reflexivity).
    specialize (IH (step tbl (OnError src) p) last). rewrite E in IH. apply IH.
    unfold follows. rewrite E. exact Hf.
  - assert (E : app (step tbl (OnLoad src) p) = app p)
      by (unfold step, dispatch; destruct (imgMounted p); reflexivity).
    specialize (IH (step tbl (OnLoad src) p) last). rewrite E in IH. apply IH.
    unfold follows. rewrite E. exact Hf.
Qed.

(** C8, as the code has it.  After any sequence of events from the first
    render, the image reference is non-null exactly when the most recent
    submission that completed without raising produced a non-empty
    normalized term, and it is then the URL resolved from that term; with no
    such submission it is null.  A submission that raises is not counted: it
    leaves the reference as it was. *)
Theorem reference_follows_last_settled (tbl : LowerTable) (evs : list event) :
  (imageUrl (app (run tbl evs mounted)) <> None <-> lastSettled tbl [] [] evs <> [])
  /\ (forall u, imageUrl (app (run tbl evs mounted)) = Some u ->
                resolveImageUrl (lastSettled tbl [] [] evs) = Normal u)
  /\ imageUrl (app mounted) = None.
Proof.
  pose proof (follows_run tbl evs mounted [] eq_refl) as H.
  cbn [mounted app searchTerm] in H. unfold follows in H.
  destruct (imageUrl (app (run tbl evs mounted))) as [u|].
  - destruct H as [Hne Hr]. split; [|split].
    + split; intros _; [exact Hne | discriminate].
    + intros u' E. injection E as <-. exact Hr.
    + reflexivity.
  - split; [|split].
    + split; intros E; [congruence | contradiction].
    + discriminate.
    + reflexivity.
Qed.

(** C8 fails as stated, whatever the casing table: submitted on the first
    render, U+D800 has a non-empty normalized term, yet the reference is
    still null afterwards. *)
Lemma raising_submission_leaves_reference :
  ~ exists tbl : LowerTable,
      imageUrl (app (submit tbl [0xD800] mounted)) <> None
      <-> cleanTermOf tbl [0xD800] <> [].
Proof.
  intros [tbl [_ H]]. apply H; [discriminate | reflexivity].
Qed.

(** ** The order of trimming and lowercasing on Latin-1 input *)

Lemma lowerLatin1_whitespace (c : Z) :
  0 <= c <= 0xFF ->
  isStrWhiteSpaceChar (lowerLatin1 c) = isStrWhiteSpaceChar c.
Proof.
  intros H.
  assert (A : forall k : nat, (k < 256)%nat ->
              isStrWhiteSpaceChar (lowerLatin1 (Z.of_nat k))
              = isStrWhiteSpaceChar (Z.of_nat k)).
  { intros k Hk.
    assert (B : forallb (fun n => Bool.eqb (isStrWhiteSpaceChar (lowerLatin1 (Z.of_nat n)))
                                           (isStrWhiteSpaceChar (Z.of_nat n)))
                        (List.seq 0 256) = true) by (vm_compute; reflexivity).
    rewrite forallb_forall in B. apply Bool.eqb_prop, B, in_seq. lia. }
  rewrite <- (Z2Nat.id c) by lia. apply A. lia.
Qed.

Lemma isLatin1_cons (c : Z) (r : jsstring) :
  isLatin1 (c :: r) = true -> 0 <= c <= 0xFF /\ isLatin1 r = true.
Proof.
  unfold isLatin1. cbn [forallb]. intros H. boolZ. auto.
Qed.

Lemma toLowerCase_Latin1 (tbl : LowerTable) (s : jsstring) :
  isLatin1 s = true -> toLowerCase tbl s = map lowerLatin1 s.
Proof.
  intros H. unfold toLowerCase.
  assert (P : StringToCodePoints s = s).
  { induction s as [|c r IH]; [reflexivity|].
    apply isLatin1_cons in H. destruct H as [Hc Hr]. cbn [StringToCodePoints].
    replace (isLeadingSurrogate c) with false
      by (symmetry; apply andb_false_iff; left; apply Z.leb_gt; lia).
    rewrite (IH Hr). reflexivity. }
  rewrite P. clear P. generalize (@nil Z) as before.
  induction s as [|c r IH]; intros before; [reflexivity|].
  apply isLatin1_cons in H. destruct H as [Hc Hr].
  cbn [toLowercaseFrom map]. unfold toLowercaseAt.
  replace (c <=? 0xFF) with true by (symmetry; apply Z.leb_le; lia).
  unfold CodePointsToString in *. rewrite flat_map_app. cbn [flat_map List.app].
  rewrite (IH Hr). rewrite UTF16EncodeCodePoint_unit; [reflexivity|].
  unfold lowerLatin1.
  destruct (((0x41 <=? c) && (c <=? 0x5A)) || ((0xC0 <=? c) && (c <=? 0xDE) && negb (c =? 0xD7)));
    lia.
Qed.

Lemma trimStart_map_lower (s : jsstring) :
  isLatin1 s = true -> trimStart (map lowerLatin1 s) = map lowerLatin1 (trimStart s).
Proof.
  induction s as [|c r IH]; [reflexivity|].
  intros H. apply isLatin1_cons in H. destruct H as [Hc Hr].
  cbn [map trimStart]. rewrite (lowerLatin1_whitespace c Hc).
  destruct (isStrWhiteSpaceChar c); [exact (IH Hr) | reflexivity].
Qed.

Lemma isLatin1_trimStart (s : jsstring) : isLatin1 s = true -> isLatin1 (trimStart s) = true.
Proof.
  induction s as [|c r IH]; [reflexivity|].
  intros H. cbn [trimStart]. destruct (isStrWhiteSpaceChar c); [|exact H].
  apply isLatin1_cons in H. apply IH, H.
Qed.

Lemma isLatin1_rev (s : jsstring) : isLatin1 s = true -> isLatin1 (rev s) = true.
Proof.
  unfold isLatin1. rewrite !forallb_forall. intros H c Hin. apply H, in_rev, Hin.
Qed.

(** X1.  On input made of Basic Latin and Latin-1
    code units, lowercasing first and trimming afterwards gives the same
    term as the order of the code, trimming first and lowercasing
    afterwards. *)
Theorem trim_toLowerCase_commute_Latin1 (tbl : LowerTable) (s : jsstring) :
  isLatin1 s = true -> trim (toLowerCase tbl s) = cleanTermOf tbl s.
Proof.
  intros H. unfold cleanTermOf.
  assert (H1 : isLatin1 (trimStart s) = true) by (apply isLatin1_trimStart, H).
  assert (H2 : isLatin1 (trim s) = true).
  { unfold trim, trimEnd. apply isLatin1_rev, isLatin1_trimStart, isLatin1_rev, H1. }
  rewrite (toLowerCase_Latin1 tbl s H), (toLowerCase_Latin1 tbl (trim s) H2).
  unfold trim, trimEnd. rewrite (trimStart_map_lower s H).
  rewrite <- map_rev, trimStart_map_lower by (apply isLatin1_rev, H1).
  rewrite map_rev. reflexivity.
Qed.

Lemma trim_toLowerCase_commute_Latin1_witness :
  isLatin1 [0xA0; 0xD1; 0x41; 0x4E; 0x44; 0xDA; 0x09] = true
  /\ trim (toLowerCase sampleLower [0xA0; 0xD1; 0x41; 0x4E; 0x44; 0xDA; 0x09])
     = [0xF1; 0x61; 0x6E; 0x64; 0xFA]
  /\ cleanTermOf sampleLower [0xA0; 0xD1; 0x41; 0x4E; 0x44; 0xDA; 0x09]
     = [0xF1; 0x61; 0x6E; 0x64; 0xFA].
Proof.
  assert (H : isLatin1 [0xA0; 0xD1; 0x41; 0x4E; 0x44; 0xDA; 0x09] = true) by reflexivity.
  split; [exact H|].
  pose proof (trim_toLowerCase_commute_Latin1 sampleLower
                [0xA0; 0xD1; 0x41; 0x4E; 0x44; 0xDA; 0x09] H) as E.
  split; [rewrite E|]; reflexivity.
Defined.

(** ** The placeholder and the reference *)



(** ** Typing, submitting twice, and what only a submission can do *)

Lemma last_cons_default (v d : jsstring) (vs : list jsstring) :
  last (v :: vs) d = last vs v.
Proof.
  revert v d. induction vs as [|w vs IH]; intros v d; [reflexivity|].
  change (last (v :: w :: vs) d) with (last (w :: vs) d).
  rewrite (IH w d), (IH w v). reflexivity.
Qed.

(** X3.  Typing changes nothing but the text of the input box: after any
    sequence of change events the view, the error, the loading flag, the
    reference and the submitted term are those of before, and the text is
    the last value typed. *)
Theorem typing_changes_only_the_text (tbl : LowerTable) (values : list jsstring)
    (p : Page) :
  view (run tbl (map OnChange values) p) = view p
  /\ display (run tbl (map OnChange values) p) = display p
  /\ imageUrl (app (run tbl (map OnChange values) p)) = imageUrl (app p)
  /\ submittedTerm (app (run tbl (map OnChange values) p)) = submittedTerm (app p)
  /\ searchTerm (app (run tbl (map OnChange values) p)) = last values (searchTerm (app p)).
Proof.
  revert p. induction values as [|v values IH]; intros p.
  - repeat split; reflexivity.
  - cbn [map run fold_left].
    change (fold_left (fun q e => step tbl e q) (map OnChange values)
              (step tbl (OnChange v) p))
      with (run tbl (map OnChange values) (step tbl (OnChange v) p)).
    destruct (IH (step tbl (OnChange v) p)) as (H1 & H2 & H3 & H4 & H5).
    rewrite H1, H2, H3, H4, H5, last_cons_default, step_OnChange.
    repeat split; reflexivity.
Qed.

(** X4.  Submitting twice in a row is submitting once: the second submit
    event leaves the whole page as the first one made it, and completes the
    way the first one did (the loading flag is not set again, an error is
    not cleared). *)
Theorem submit_twice_is_once (tbl : LowerTable) (p : Page) :
  step tbl OnSubmit (step tbl OnSubmit p) = step tbl OnSubmit p
  /\ outcome tbl OnSubmit (step tbl OnSubmit p) = outcome tbl OnSubmit p.
Proof.
  destruct (jsstring_eq_dec (cleanTermOf tbl (searchTerm (app p))) []) as [E|NE].
  - unfold outcome, step, dispatch. rewrite (handleSubmit_blank tbl (app p) E).
    cbn [fst snd app display imageUrl].
    match goal with
    | |- context [handleSubmit tbl ?s] => rewrite (handleSubmit_blank tbl s E)
    end.
    cbn [fst snd app display imageUrl]. unfold useEffect at 1.
    rewrite sameValue_refl. split; reflexivity.
  - destruct (isWellFormed (cleanTermOf tbl (searchTerm (app p)))) eqn:Hw.
    + destruct (resolveImageUrl_wellFormed _ Hw) as [e He].
      assert (Hr : resolveImageUrl (cleanTermOf tbl (searchTerm (app p)))
                   = Normal (basePath ++ e ++ pngSuffix))
        by (apply resolveImageUrl_Normal; eauto).
      unfold outcome, step, dispatch.
      rewrite (handleSubmit_resolved tbl (app p) _ NE Hr).
      cbn [fst snd app display imageUrl].
      match goal with
      | |- context [handleSubmit tbl ?s] => rewrite (handleSubmit_resolved tbl s _ NE Hr)
      end.
      cbn [fst snd app display imageUrl searchTerm]. unfold useEffect at 1.
      rewrite sameValue_refl. split; reflexivity.
    + unfold outcome, step, dispatch.
      rewrite (handleSubmit_raises tbl (app p) NE Hw).
      cbn [fst snd app display imageUrl].
      match goal with
      | |- context [handleSubmit tbl ?s] => rewrite (handleSubmit_raises tbl s NE Hw)
      end.
      cbn [fst snd app display imageUrl searchTerm]. unfold useEffect at 1.
      rewrite sameValue_refl. split; reflexivity.
Qed.

(** X5.  Only a submission changes the image reference and the submitted
    term: a sequence of events without a submit event (typing, load and
    error notifications) leaves both as they were. *)
Theorem only_submit_changes_reference (tbl : LowerTable) (evs : list event) (p : Page) :
  noSubmit evs = true ->
  imageUrl (app (run tbl evs p)) = imageUrl (app p)
  /\ submittedTerm (app (run tbl evs p)) = submittedTerm (app p).
Proof.
  revert p. induction evs as [|ev evs IH]; intros p Hn; [split; reflexivity|].
  cbn [noSubmit forallb] in Hn. apply andb_true_iff in Hn. destruct Hn as [Hev Hn].
  cbn [run fold_left].
  change (fold_left (fun q e => step tbl e q) evs (step tbl ev p))
    with (run tbl evs (step tbl ev p)).
  destruct (IH (step tbl ev p) Hn) as [-> ->].
  destruct ev as [value| |src|src]; [|discriminate| |].
  - rewrite step_OnChange. split; reflexivity.
  - unfold step, dispatch. destruct (imgMounted p); split; reflexivity.
  - unfold step, dispatch. destruct (imgMounted p); split; reflexivity.
Qed.

Lemma only_submit_changes_reference_witness :
  noSubmit [OnLoad perroUrl; OnChange perro; OnError casaUrl] = true
  /\ imageUrl (app (run sampleLower [OnLoad perroUrl; OnChange perro; OnError casaUrl]
                      (pendingCasa sampleLower))) = Some casaUrl
  /\ submittedTerm (app (run sampleLower [OnLoad perroUrl; OnChange perro; OnError casaUrl]
                           (pendingCasa sampleLower))) = casa.
Proof.
  assert (H : noSubmit [OnLoad perroUrl; OnChange perro; OnError casaUrl] = true)
    by reflexivity.
  split; [exact H|].
  destruct (only_submit_changes_reference sampleLower
              [OnLoad perroUrl; OnChange perro; OnError casaUrl]
              (pendingCasa sampleLower) H) as [H1 H2].
  split; [rewrite H1 | rewrite H2]; reflexivity.
Defined.

(** X6.  The loading flag is raised by nothing but a submission that changes
    the reference to a non-null one: if an event takes a page that is not
    loading to one that is, the event is a submit event and the reference
    after it is present and differs from the one before. *)
Theorem loading_starts_only_on_new_reference (tbl : LowerTable) (ev : event) (p : Page) :
  isLoading (display p) = false ->
  isLoading (display (step tbl ev p)) = true ->
  ev = OnSubmit
  /\ imageUrl (app (step tbl ev p)) <> None
  /\ imageUrl (app (step tbl ev p)) <> imageUrl (app p).
Proof.
  intros H0 H1. destruct ev as [value| |src|src].
  - rewrite step_OnChange in H1. cbn [display] in H1. congruence.
  - split; [reflexivity|]. unfold step, dispatch in *.
    destruct (handleSubmit tbl (app p)) as [a c]. cbn [fst app display] in *.
    unfold useEffect in H1.
    destruct (sameValue (imageUrl (app p)) (imageUrl a)) eqn:Hs; [congruence|].
    apply sameValue_false in Hs. unfold imageUrlEffect in H1.
    destruct (truthyOpt (imageUrl a)) eqn:Ht; [|discriminate].
    split; [|congruence]. intros E. rewrite E in Ht. discriminate.
  - unfold step, dispatch in H1. destruct (imgMounted p); cbn in H1; congruence.
  - unfold step, dispatch in H1. destruct (imgMounted p); cbn in H1; congruence.
Qed.

Lemma loading_starts_only_on_new_reference_witness :
  isLoading (display (step sampleLower (OnChange perro) (failedCasa sampleLower))) = false
  /\ isLoading (display (step sampleLower OnSubmit
                           (step sampleLower (OnChange perro) (failedCasa sampleLower))))
     = true
  /\ imageUrl (app (step sampleLower OnSubmit
                      (step sampleLower (OnChange perro) (failedCasa sampleLower))))
     <> imageUrl (app (step sampleLower (OnChange perro) (failedCasa sampleLower))).
Proof.
  assert (H0 : isLoading (display (step sampleLower (OnChange perro)
                                     (failedCasa sampleLower))) = false) by reflexivity.
  assert (H1 : isLoading (display (step sampleLower OnSubmit
                                     (step sampleLower (OnChange perro)
                                        (failedCasa sampleLower)))) = true) by reflexivity.
  split; [exact H0|]. split; [exact H1|].
  exact (proj2 (proj2 (loading_starts_only_on_new_reference sampleLower OnSubmit
                         (step sampleLower (OnChange perro) (failedCasa sampleLower))
                         H0 H1))).
Defined.

(** ** What the display shows *)

(** X7.  [ImageDisplay] shows one thing at a time, on every page: the
    placeholder exactly in state Idle, the spinner exactly in state Pending,
    the error box exactly in state Failure, and the image unhidden exactly in
    state Success. *)
Theorem view_shows_one_thing (p : Page) :
  (view p = Placeholder <-> phase p = Idle)
  /\ (spinnerOf (view p) = true <-> phase p = Pending)
  /\ (errorBoxOf (view p) <> None <-> phase p = Failure)
  /\ (imgShownOf (view p) = true <-> phase p = Success).
Proof.
  unfold phase, view, ImageDisplay.
  destruct (truthyOpt (imageUrl (app p))), (isLoading (display p)),
    (error (display p)) as [m|]; cbn [truthyOpt negb andb orb];
    try destruct (truthy m);
    cbn [negb andb orb phaseOf spinnerOf errorBoxOf imgShownOf];
    repeat split; intros; try congruence; try discriminate.
Qed.

Lemma phase_Failure_display (p : Page) :
  phase p = Failure <->
  isLoading (display p) = false /\ truthyOpt (error (display p)) = true.
Proof.
  unfold phase, view, ImageDisplay.
  destruct (truthyOpt (imageUrl (app p))), (isLoading (display p)),
    (error (display p)) as [m|]; cbn [truthyOpt negb andb orb];
    try destruct (truthy m); cbn [negb andb orb phaseOf];
    split; intros; try congruence; try discriminate; try tauto;
    destruct H; discriminate.
Qed.

(** X8.  A failure is never undone by anything but a submission: from state
    Failure, every sequence of events without a submit event (typing, late
    load or error notifications) ends in state Failure, the error box still
    shown and the image hidden. *)
Theorem failure_stays_until_submit (tbl : LowerTable) (evs : list event) (p : Page) :
  phase p = Failure ->
  noSubmit evs = true ->
  phase (run tbl evs p) = Failure
  /\ errorBoxOf (view (run tbl evs p)) <> None
  /\ imgShownOf (view (run tbl evs p)) = false.
Proof.
  intros Hf Hn.
  assert (H : phase (run tbl evs p) = Failure).
  { revert p Hf Hn. induction evs as [|ev evs IH]; intros p Hf Hn; [exact Hf|].
    cbn [noSubmit forallb] in Hn. apply andb_true_iff in Hn. destruct Hn as [Hev Hn].
    cbn [run fold_left]. apply IH; [|exact Hn].
    assert (Hm : imgMounted p = true).
    { unfold imgMounted. unfold phase in Hf. destruct (view p); [discriminate|reflexivity]. }
    apply phase_Failure_display in Hf. destruct Hf as [Hl He].
    apply phase_Failure_display.
    destruct ev as [value| |src|src]; [|discriminate| |].
    - rewrite step_OnChange. cbn [display]. auto.
    - unfold step, dispatch. rewrite Hm. cbn. auto.
    - unfold step, dispatch. rewrite Hm. cbn. auto. }
  split; [exact H|].
  unfold phase in H. destruct (view (run tbl evs p)) as [|[|] [m|] src alt hidden] eqn:Ev;
    try discriminate.
  cbn [errorBoxOf imgShownOf]. split; [discriminate|].
  unfold view, ImageDisplay in Ev.
  destruct (negb (truthyOpt (imageUrl (app (run tbl evs p))))
            && negb (truthyOpt (error (display (run tbl evs p))))); [discriminate|].
  injection Ev as E1 E2 _ _ E5. rewrite E1 in *. cbn [negb orb andb] in *.
  destruct (truthyOpt (error (display (run tbl evs p)))); [|discriminate].
  subst hidden. reflexivity.
Qed.

Lemma failure_stays_until_submit_witness :
  phase (failedCasa sampleLower) = Failure
  /\ noSubmit [OnLoad casaUrl; OnChange perro; OnLoad perroUrl] = true
  /\ phase (run sampleLower [OnLoad casaUrl; OnChange perro; OnLoad perroUrl]
              (failedCasa sampleLower)) = Failure.
Proof.
  assert (Hf : phase (failedCasa sampleLower) = Failure) by reflexivity.
  assert (Hn : noSubmit [OnLoad casaUrl; OnChange perro; OnLoad perroUrl] = true)
    by reflexivity.
  split; [exact Hf|]. split; [exact Hn|].
  exact (proj1 (failure_stays_until_submit sampleLower
                  [OnLoad casaUrl; OnChange perro; OnLoad perroUrl]
                  (failedCasa sampleLower) Hf Hn)).
Defined.

(** ** Normalization of the typed text *)

Lemma trimStart_app_whitespace (a s : jsstring) :
  forallb isStrWhiteSpaceChar a = true -> trimStart (a ++ s) = trimStart s.
Proof.
  induction a as [|c a IH]; [reflexivity|].
  cbn [forallb]. intros H. apply andb_true_iff in H. destruct H as [Hc Ha].
  cbn [List.app trimStart]. rewrite Hc. exact (IH Ha).
Qed.

Lemma forallb_rev_whitespace (b : jsstring) :
  forallb isStrWhiteSpaceChar b = true -> forallb isStrWhiteSpaceChar (rev b) = true.
Proof.
  rewrite !forallb_forall. intros H c Hin. apply H, in_rev, Hin.
Qed.

Lemma trimEnd_app_whitespace (s b : jsstring) :
  forallb isStrWhiteSpaceChar b = true -> trimEnd (s ++ b) = trimEnd s.
Proof.
  intros H. unfold trimEnd. rewrite rev_app_distr.
  rewrite (trimStart_app_whitespace _ _ (forallb_rev_whitespace b H)). reflexivity.
Qed.

Lemma trim_app_whitespace (s b : jsstring) :
  forallb isStrWhiteSpaceChar b = true -> trim (s ++ b) = trim s.
Proof.
  intros H. unfold trim. induction s as [|c r IH].
  - cbn [List.app]. rewrite (trimStart_whitespace b H). reflexivity.
  - cbn [List.app trimStart]. destruct (isStrWhiteSpaceChar c); [exact IH|].
    apply (trimEnd_app_whitespace (c :: r) b H).
Qed.

(** X9.  White space around the typed text never matters: with any white
    space before and after it, a text has the normalized term it has without,
    whatever the casing table. *)
Theorem surrounding_whitespace_is_ignored (tbl : LowerTable) (a s b : jsstring) :
  forallb isStrWhiteSpaceChar a = true ->
  forallb isStrWhiteSpaceChar b = true ->
  cleanTermOf tbl (a ++ s ++ b) = cleanTermOf tbl s.
Proof.
  intros Ha Hb. unfold cleanTermOf. f_equal.
  unfold trim at 1. rewrite (trimStart_app_whitespace a (s ++ b) Ha).
  exact (trim_app_whitespace s b Hb).
Qed.

Lemma surrounding_whitespace_is_ignored_witness :
  forallb isStrWhiteSpaceChar [0x09; 0xFEFF; 0x20] = true
  /\ forallb isStrWhiteSpaceChar [0x3000; 0x0A] = true
  /\ cleanTermOf sampleLower ([0x09; 0xFEFF; 0x20] ++ lit "La Casa" ++ [0x3000; 0x0A])
     = lit "la casa".
Proof.
  assert (Ha : forallb isStrWhiteSpaceChar [0x09; 0xFEFF; 0x20] = true) by reflexivity.
  assert (Hb : forallb isStrWhiteSpaceChar [0x3000; 0x0A] = true) by reflexivity.
  split; [exact Ha|]. split; [exact Hb|].
  rewrite (surrounding_whitespace_is_ignored sampleLower _ (lit "La Casa") _ Ha Hb).
  reflexivity.
Defined.

Lemma trimStart_snoc (x : jsstring) (c : Z) :
  isStrWhiteSpaceChar c = false -> trimStart (x ++ [c]) = trimStart x ++ [c].
Proof.
  intros Hc. induction x as [|d x IH].
  - cbn [List.app trimStart]. rewrite Hc. reflexivity.
  - cbn [List.app trimStart]. destruct (isStrWhiteSpaceChar d); [exact IH|reflexivity].
Qed.

(** Trimming at the end keeps a first code unit that is not white space. *)
Lemma trimEnd_cons (c : Z) (r : jsstring) :
  isStrWhiteSpaceChar c = false -> trimEnd (c :: r) = c :: trimEnd r.
Proof.
  intros Hc. unfold trimEnd. cbn [rev]. rewrite (trimStart_snoc _ _ Hc).
  rewrite rev_app_distr. reflexivity.
Qed.

Lemma trimStart_idempotent (s : jsstring) : trimStart (trimStart s) = trimStart s.
Proof.
  induction s as [|c r IH]; [reflexivity|].
  cbn [trimStart]. destruct (isStrWhiteSpaceChar c) eqn:Hc; [exact IH|].
  cbn [trimStart]. rewrite Hc. reflexivity.
Qed.

Lemma trimEnd_idempotent (s : jsstring) : trimEnd (trimEnd s) = trimEnd s.
Proof.
  unfold trimEnd. rewrite rev_involutive, trimStart_idempotent. reflexivity.
Qed.

Lemma trimStart_trim (s : jsstring) : trimStart (trim s) = trim s.
Proof.
  unfold trim. induction s as [|c r IH]; [reflexivity|].
  cbn [trimStart]. destruct (isStrWhiteSpaceChar c) eqn:Hc; [exact IH|].
  rewrite (trimEnd_cons c r Hc). cbn [trimStart]. rewrite Hc. reflexivity.
Qed.

Lemma trim_idempotent (s : jsstring) : trim (trim s) = trim s.
Proof.
  unfold trim at 1. rewrite trimStart_trim. unfold trim. apply trimEnd_idempotent.
Qed.

Lemma trimStart_nil (s : jsstring) :
  trimStart s = [] -> forallb isStrWhiteSpaceChar s = true.
Proof.
  induction s as [|c r IH]; [reflexivity|].
  cbn [trimStart forallb]. destruct (isStrWhiteSpaceChar c); [exact IH|discriminate].
Qed.

Lemma trim_nil (s : jsstring) :
  trim s = [] <-> forallb isStrWhiteSpaceChar s = true.
Proof.
  split; [|apply trim_whitespace].
  unfold trim. intros H. apply trimStart_nil.
  destruct (trimStart s) as [|c r] eqn:E; [reflexivity|].
  assert (Hc : isStrWhiteSpaceChar c = false).
  { destruct (isStrWhiteSpaceChar c) eqn:Hc; [|reflexivity].
    pose proof (trimStart_idempotent s) as Hi. rewrite E in Hi.
    cbn [trimStart] in Hi. rewrite Hc in Hi.
    assert (Hlen : (List.length (trimStart r) <= List.length r)%nat).
    { clear. induction r as [|d r IH]; [apply le_n|].
      cbn [trimStart]. destruct (isStrWhiteSpaceChar d); cbn [List.length]; lia. }
    rewrite Hi in Hlen. cbn [List.length] in Hlen. lia. }
  rewrite (trimEnd_cons c r Hc) in H. discriminate.
Qed.

Lemma lowerLatin1_range (c : Z) :
  0 <= c <= 0xFF ->
  0 <= lowerLatin1 c <= 0xFF /\ lowerLatin1 (lowerLatin1 c) = lowerLatin1 c.
Proof.
  intros H.
  assert (A : forall k : nat, (k < 256)%nat ->
              0 <= lowerLatin1 (Z.of_nat k) <= 0xFF
              /\ lowerLatin1 (lowerLatin1 (Z.of_nat k)) = lowerLatin1 (Z.of_nat k)).
  { intros k Hk.
    assert (B : forallb (fun n => (0 <=? lowerLatin1 (Z.of_nat n))
                                  && (lowerLatin1 (Z.of_nat n) <=? 0xFF)
                                  && (lowerLatin1 (lowerLatin1 (Z.of_nat n))
                                      =? lowerLatin1 (Z.of_nat n)))
                        (List.seq 0 256) = true) by (vm_compute; reflexivity).
    rewrite forallb_forall in B. specialize (B k). 
    assert (Hin : In k (List.seq 0 256)) by (apply in_seq; lia).
    apply B in Hin. boolZ. auto. }
  rewrite <- (Z2Nat.id c) by lia. apply A. lia.
Qed.

Lemma isLatin1_map_lower (s : jsstring) :
  isLatin1 s = true ->
  isLatin1 (map lowerLatin1 s) = true
  /\ map lowerLatin1 (map lowerLatin1 s) = map lowerLatin1 s.
Proof.
  induction s as [|c r IH]; [split; reflexivity|].
  intros H. apply isLatin1_cons in H. destruct H as [Hc Hr].
  destruct (IH Hr) as [I1 I2]. destruct (lowerLatin1_range c Hc) as [R1 R2].
  cbn [map]. split.
  - unfold isLatin1 in *. cbn [forallb]. rewrite I1.
    replace (0 <=? lowerLatin1 c) with true by (symmetry; apply Z.leb_le; lia).
    replace (lowerLatin1 c <=? 0xFF) with true by (symmetry; apply Z.leb_le; lia).
    reflexivity.
  - rewrite R2, I2. reflexivity.
Qed.

Lemma isLatin1_trim (s : jsstring) : isLatin1 s = true -> isLatin1 (trim s) = true.
Proof.
  intros H. unfold trim, trimEnd.
  apply isLatin1_rev, isLatin1_trimStart, isLatin1_rev, isLatin1_trimStart, H.
Qed.

Lemma trim_map_lower (s : jsstring) :
  isLatin1 s = true -> trim (map lowerLatin1 s) = map lowerLatin1 (trim s).
Proof.
  intros H. unfold trim, trimEnd. rewrite (trimStart_map_lower s H).
  rewrite <- map_rev.
  rewrite trimStart_map_lower by (apply isLatin1_rev, isLatin1_trimStart, H).
  rewrite map_rev. reflexivity.
Qed.

Lemma cleanTermOf_Latin1 (tbl : LowerTable) (s : jsstring) :
  isLatin1 s = true -> cleanTermOf tbl s = map lowerLatin1 (trim s).
Proof.
  intros H. unfold cleanTermOf. apply toLowerCase_Latin1, isLatin1_trim, H.
Qed.

(** X10.  On text made of Basic Latin and Latin-1 code units normalization
    is idempotent and blind to case: normalizing a normalized term changes
    nothing, and a text and its lowercase form have the same normalized
    term. *)
Theorem normalization_idempotent_Latin1 (tbl : LowerTable) (s : jsstring) :
  isLatin1 s = true ->
  cleanTermOf tbl (cleanTermOf tbl s) = cleanTermOf tbl s
  /\ cleanTermOf tbl (map lowerLatin1 s) = cleanTermOf tbl s.
Proof.
  intros H. pose proof (isLatin1_trim s H) as Ht.
  destruct (isLatin1_map_lower (trim s) Ht) as [L1 L2].
  destruct (isLatin1_map_lower s H) as [M1 _].
  rewrite (cleanTermOf_Latin1 tbl s H). split.
  - rewrite (cleanTermOf_Latin1 tbl _ L1), (trim_map_lower _ Ht), trim_idempotent.
    exact L2.
  - rewrite (cleanTermOf_Latin1 tbl _ M1), (trim_map_lower s H). exact L2.
Qed.

Lemma normalization_idempotent_Latin1_witness :
  isLatin1 [0x20; 0xC1; 0x52; 0x42; 0x4F; 0x4C; 0x20; 0x58; 0x0D] = true
  /\ cleanTermOf sampleLower [0x20; 0xC1; 0x52; 0x42; 0x4F; 0x4C; 0x20; 0x58; 0x0D]
     = [0xE1; 0x72; 0x62; 0x6F; 0x6C; 0x20; 0x78]
  /\ cleanTermOf sampleLower
       (cleanTermOf sampleLower [0x20; 0xC1; 0x52; 0x42; 0x4F; 0x4C; 0x20; 0x58; 0x0D])
     = cleanTermOf sampleLower [0x20; 0xC1; 0x52; 0x42; 0x4F; 0x4C; 0x20; 0x58; 0x0D].
Proof.
  assert (H : isLatin1 [0x20; 0xC1; 0x52; 0x42; 0x4F; 0x4C; 0x20; 0x58; 0x0D] = true)
    by reflexivity.
  split; [exact H|]. split; [reflexivity|].
  exact (proj1 (normalization_idempotent_Latin1 sampleLower _ H)).
Defined.

(** ** Submissions that cannot raise, and the one that does *)

Lemma isLatin1_isWellFormed (s : jsstring) : isLatin1 s = true -> isWellFormed s = true.
Proof.
  induction s as [|c r IH]; [reflexivity|].
  intros H. apply isLatin1_cons in H. destruct H as [Hc Hr]. cbn [isWellFormed].
  replace (isLeadingSurrogate c) with false
    by (symmetry; apply andb_false_iff; left; apply Z.leb_gt; lia).
  replace (isTrailingSurrogate c) with false
    by (symmetry; apply andb_false_iff; left; apply Z.leb_gt; lia).
  exact (IH Hr).
Qed.

(** X11.  A submission of text made of Basic Latin and Latin-1 code units
    never raises; it leaves the page without a reference exactly when the
    text is empty or white space only, and otherwise with the reference
    resolved from the submitted term it stores. *)
Theorem Latin1_submission_completes (tbl : LowerTable) (raw : jsstring) (p : Page) :
  isLatin1 raw = true ->
  submitOutcome tbl raw p = Normal tt
  /\ (imageUrl (app (submit tbl raw p)) = None
      <-> forallb isStrWhiteSpaceChar raw = true)
  /\ coherent (submit tbl raw p).
Proof.
  intros H. pose proof (cleanTermOf_Latin1 tbl raw H) as Hc.
  destruct (isLatin1_map_lower (trim raw) (isLatin1_trim raw H)) as [Hl _].
  rewrite <- Hc in Hl. apply isLatin1_isWellFormed in Hl.
  destruct (jsstring_eq_dec (cleanTermOf tbl raw) []) as [E|NE].
  - destruct (submit_blank tbl raw p E) as [-> ->].
    unfold coherent. cbn [app imageUrl]. split; [reflexivity|]. split; [|exact I].
    split; intros _; [|reflexivity].
    apply trim_nil. rewrite Hc in E. destruct (trim raw); [reflexivity|discriminate].
  - destruct (resolveImageUrl_wellFormed _ Hl) as [e He].
    assert (Hr : resolveImageUrl (cleanTermOf tbl raw) = Normal (basePath ++ e ++ pngSuffix))
      by (apply resolveImageUrl_Normal; eauto).
    destruct (submit_resolved tbl raw _ p NE Hr) as [-> ->].
    unfold coherent. cbn [app imageUrl submittedTerm].
    split; [reflexivity|]. split; [|exact Hr].
    split; [discriminate|]. intros Hw. exfalso. apply NE.
    rewrite Hc, (proj2 (trim_nil raw) Hw). reflexivity.
Qed.

Lemma Latin1_submission_completes_witness :
  isLatin1 [0x50; 0x49; 0xD1; 0x41; 0x20] = true
  /\ submitOutcome sampleLower [0x50; 0x49; 0xD1; 0x41; 0x20] (failedCasa sampleLower)
     = Normal tt
  /\ coherent (submit sampleLower [0x50; 0x49; 0xD1; 0x41; 0x20] (failedCasa sampleLower)).
Proof.
  assert (H : isLatin1 [0x50; 0x49; 0xD1; 0x41; 0x20] = true) by reflexivity.
  split; [exact H|].
  destruct (Latin1_submission_completes sampleLower [0x50; 0x49; 0xD1; 0x41; 0x20]
              (failedCasa sampleLower) H) as (H1 & _ & H3).
  split; [exact H1 | exact H3].
Defined.

(** X12.  A submission that raises changes the text and the submitted term
    only: when the normalized term is not empty and holds an unpaired
    surrogate, the submit handler ends with URIError, the submitted term is
    the new term, and the reference, the error, the loading flag, the state
    and the image address shown stay those of before. *)
Theorem raising_submission_keeps_display (tbl : LowerTable) (raw : jsstring) (p : Page) :
  cleanTermOf tbl raw <> [] ->
  isWellFormed (cleanTermOf tbl raw) = false ->
  submitOutcome tbl raw p = Throw URIError
  /\ submittedTerm (app (submit tbl raw p)) = cleanTermOf tbl raw
  /\ imageUrl (app (submit tbl raw p)) = imageUrl (app p)
  /\ display (submit tbl raw p) = display p
  /\ phase (submit tbl raw p) = phase p
  /\ imgSrcOf (view (submit tbl raw p)) = imgSrcOf (view p).
Proof.
  intros Hne Hw. destruct (submit_raises tbl raw p Hne Hw) as [-> ->].
  unfold phase, view, ImageDisplay. cbn [app display imageUrl submittedTerm].
  destruct (negb (truthyOpt (imageUrl (app p))) && negb (truthyOpt (error (display p))));
    repeat split; reflexivity.
Qed.

Lemma raising_submission_keeps_display_witness :
  cleanTermOf sampleLower [0x41; 0xDC00] <> []
  /\ isWellFormed (cleanTermOf sampleLower [0x41; 0xDC00]) = false
  /\ submitOutcome sampleLower [0x41; 0xDC00] (pendingCasa sampleLower) = Throw URIError
  /\ submittedTerm (app (submit sampleLower [0x41; 0xDC00] (pendingCasa sampleLower)))
     = [0x61; 0xDC00]
  /\ imageUrl (app (submit sampleLower [0x41; 0xDC00] (pendingCasa sampleLower)))
     = Some casaUrl.
Proof.
  assert (Hne : cleanTermOf sampleLower [0x41; 0xDC00] <> []) by discriminate.
  assert (Hw : isWellFormed (cleanTermOf sampleLower [0x41; 0xDC00]) = false)
    by reflexivity.
  split; [exact Hne|]. split; [exact Hw|].
  destruct (raising_submission_keeps_display sampleLower [0x41; 0xDC00]
              (pendingCasa sampleLower) Hne Hw) as (H1 & H2 & H3 & _).
  split; [exact H1|]. split; [rewrite H2 | rewrite H3]; reflexivity.
Defined.

(** ** The address of an image *)

(** X13.  Two different terms never share an address: when the resolver
    returns URLs for two different strings of 16-bit code units, the URLs
    differ. *)
Theorem distinct_terms_distinct_urls (t1 t2 u1 u2 : jsstring) :
  isCodeUnits t1 = true -> isCodeUnits t2 = true ->
  resolveImageUrl t1 = Normal u1 -> resolveImageUrl t2 = Normal u2 ->
  t1 <> t2 -> u1 <> u2.
Proof.
  intros H1 H2 E1 E2 Hd Hu. subst u2. apply Hd.
  exact (resolveImageUrl_injective t1 t2 u1 H1 H2 E1 E2).
Qed.

Lemma distinct_terms_distinct_urls_witness :
  isCodeUnits [0x61; 0x2F; 0x62] = true /\ isCodeUnits [0x61; 0x25; 0x32; 0x46; 0x62] = true
  /\ exists u1 u2,
       resolveImageUrl [0x61; 0x2F; 0x62] = Normal u1
       /\ resolveImageUrl [0x61; 0x25; 0x32; 0x46; 0x62] = Normal u2
       /\ u1 <> u2.
Proof.
  split; [reflexivity|]. split; [reflexivity|].
  eexists. eexists. split; [reflexivity|]. split; [reflexivity|].
  apply (distinct_terms_distinct_urls [0x61; 0x2F; 0x62] [0x61; 0x25; 0x32; 0x46; 0x62]);
    [reflexivity | reflexivity | reflexivity | reflexivity | discriminate].
Defined.

(** X14.  The address is plain text: for a string of 16-bit code units every
    code unit of the URL the resolver returns is a printable ASCII character
    and none is a space. *)
Theorem resolved_url_is_printable_ascii (t u : jsstring) :
  isCodeUnits t = true ->
  resolveImageUrl t = Normal u ->
  forallb isPrintableAscii u = true.
Proof.
  intros Ht Hu. apply resolveImageUrl_Normal in Hu. destruct Hu as (e & He & ->).
  pose proof (Encode_isPercentEncoded t Ht e He) as Hp.
  rewrite !forallb_app. apply andb_true_iff. split; [reflexivity|].
  apply andb_true_iff. split; [|reflexivity].
  apply forallb_forall. intros c Hin.
  destruct (isPercentEncoded_units (List.length e) e (le_n _) Hp c Hin) as [H|[H|H]].
  - apply isUnescaped_ascii in H. unfold isPrintableAscii.
    apply andb_true_iff. split; apply Z.leb_le; lia.
  - subst c. reflexivity.
  - unfold isUpperHex in H. unfold isPrintableAscii.
    apply orb_true_iff in H. destruct H as [H|H]; boolZ;
      apply andb_true_iff; split; apply Z.leb_le; lia.
Qed.

Lemma resolved_url_is_printable_ascii_witness :
  isCodeUnits [0x20; 0xF1; 0x20AC; 0xD83D; 0xDE00] = true
  /\ exists u, resolveImageUrl [0x20; 0xF1; 0x20AC; 0xD83D; 0xDE00] = Normal u
               /\ forallb isPrintableAscii u = true.
Proof.
  split; [reflexivity|]. eexists. split; [reflexivity|].
  apply (resolved_url_is_printable_ascii [0x20; 0xF1; 0x20AC; 0xD83D; 0xDE00]);
    reflexivity.
Defined.

Lemma Encode_unescaped (t : jsstring) :
  forallb isUnescaped t = true -> Encode t = Normal t.
Proof.
  induction t as [|c r IH]; [reflexivity|].
  cbn [forallb]. intros H. apply andb_true_iff in H. destruct H as [Hc Hr].
  cbn [Encode]. rewrite Hc, (IH Hr). reflexivity.
Qed.

Lemma escapeCodePoint_length (cp : Z) :
  (3 <= List.length (escapeCodePoint cp) <= 12)%nat
  /\ (cp <= 0xFFFF -> (List.length (escapeCodePoint cp) <= 9)%nat).
Proof.
  unfold escapeCodePoint, utf8Octets.
  destruct (cp <=? 0x7F) eqn:Ea; [|destruct (cp <=? 0x7FF) eqn:Eb;
    [|destruct (cp <=? 0xFFFF) eqn:Ec]]; boolZ;
    cbn [flat_map percentOctet List.app List.length]; lia.
Qed.

(** An encoded string is at least as long as the string, and as long only
    when nothing was escaped. *)
Lemma Encode_length_lower (s : jsstring) :
  forall e, Encode s = Normal e ->
  (List.length s <= List.length e)%nat
  /\ (List.length e = List.length s -> forallb isUnescaped s = true).
Proof.
  induction s as [|c r IHr IHr'] using pair_step_ind.
  - intros e E. injection E as <-. split; [apply le_n | reflexivity].
  - intros e E. cbn [Encode forallb] in *.
    destruct (isUnescaped c) eqn:Hu.
    + destruct (Encode r) as [R|] eqn:ER; [|discriminate].
      cbn [bind] in E. injection E as <-.
      destruct (IHr R ltac:(first [exact eq_refl | assumption])) as [L1 L2].
      cbn [List.length andb]. split; [lia|]. intros H. apply L2. lia.
    + destruct (isLeadingSurrogate c) eqn:Hl.
      * destruct r as [|d r']; [discriminate|].
        destruct (isTrailingSurrogate d) eqn:Hd; [|discriminate].
        destruct (Encode r') as [R|] eqn:ER; [|discriminate].
        cbn [bind] in E. injection E as <-.
        destruct (IHr' d r' eq_refl R ltac:(first [exact eq_refl | assumption])) as [L1 _].
        pose proof (surrogate_pair_range c d Hl Hd) as Hp.
        assert (L : (List.length (escapeCodePoint (UTF16SurrogatePairToCodePoint c d))
                     = 12)%nat).
        { unfold escapeCodePoint, utf8Octets.
          replace (UTF16SurrogatePairToCodePoint c d <=? 0x7F) with false
            by (symmetry; apply Z.leb_gt; lia).
          replace (UTF16SurrogatePairToCodePoint c d <=? 0x7FF) with false
            by (symmetry; apply Z.leb_gt; lia).
          replace (UTF16SurrogatePairToCodePoint c d <=? 0xFFFF) with false
            by (symmetry; apply Z.leb_gt; lia).
          reflexivity. }
        rewrite length_app, L. cbn [List.length]. split; lia.
      * destruct (isTrailingSurrogate c); [discriminate|].
        destruct (Encode r) as [R|] eqn:ER; [|discriminate].
        cbn [bind] in E. injection E as <-.
        destruct (IHr R ltac:(first [exact eq_refl | assumption])) as [L1 _].
        destruct (escapeCodePoint_length c) as [[L _] _].
        rewrite length_app. cbn [List.length]. split; lia.
Qed.

(** X15.  A term written with letters without accent, digits and the marks
    - _ . ! ~ * ' ( ) only is used as it is: its URL is the base path, the
    term itself and ".png"; a term with any other code unit is escaped, so
    its URL is never that concatenation. *)
Theorem unescaped_term_is_verbatim (t : jsstring) :
  (forallb isUnescaped t = true ->
   resolveImageUrl t = Normal (basePath ++ t ++ pngSuffix))
  /\ (forallb isUnescaped t = false ->
      resolveImageUrl t <> Normal (basePath ++ t ++ pngSuffix)).
Proof.
  split.
  - intros H. apply resolveImageUrl_Normal. exists t. split; [|reflexivity].
    apply Encode_unescaped, H.
  - intros H E. apply resolveImageUrl_Normal in E. destruct E as (e & He & Hu).
    apply app_inv_head, app_inv_tail in Hu. subst e.
    destruct (Encode_length_lower t t He) as [_ L].
    rewrite (L eq_refl) in H. discriminate.
Qed.

Lemma unescaped_term_is_verbatim_witness :
  (forallb isUnescaped (lit "exponente_2") = true
   /\ resolveImageUrl (lit "exponente_2")
      = Normal (basePath ++ lit "exponente_2" ++ pngSuffix))
  /\ (forallb isUnescaped (lit "la casa") = false
      /\ resolveImageUrl (lit "la casa") <> Normal (basePath ++ lit "la casa" ++ pngSuffix)).
Proof.
  split.
  - split; [reflexivity|].
    exact (proj1 (unescaped_term_is_verbatim (lit "exponente_2")) eq_refl).
  - split; [reflexivity|].
    exact (proj2 (unescaped_term_is_verbatim (lit "la casa")) eq_refl).
Defined.

(** X16.  The address grows with the term and no faster than nine times:
    for a term of [n] 16-bit code units the URL the resolver returns has
    between [59 + n] and [59 + 9 * n] code units (the base path has 55, the
    extension 4). *)
Theorem resolved_url_length (t u : jsstring) :
  isCodeUnits t = true ->
  resolveImageUrl t = Normal u ->
  (59 + List.length t <= List.length u <= 59 + 9 * List.length t)%nat.
Proof.
  intros Ht Hu. apply resolveImageUrl_Normal in Hu. destruct Hu as (e & He & ->).
  rewrite !length_app. change (List.length basePath) with 55%nat.
  change (List.length pngSuffix) with 4%nat.
  destruct (Encode_length_lower t e He) as [Hlow _].
  enough (Hup : (List.length e <= 9 * List.length t)%nat) by lia.
  clear Hlow. revert e He.
  induction t as [|c r IHr IHr'] using pair_step_ind; intros e E.
  - injection E as <-. apply le_n.
  - apply isCodeUnits_cons in Ht. destruct Ht as [Hc Hr]. cbn [Encode] in E.
    destruct (isUnescaped c).
    + destruct (Encode r) as [R|] eqn:ER; [|discriminate].
      cbn [bind] in E. injection E as <-.
      pose proof (IHr Hr R ltac:(first [exact eq_refl | assumption])).
      cbn [List.length]. lia.
    + destruct (isLeadingSurrogate c).
      * destruct r as [|d r']; [discriminate|].
        destruct (isTrailingSurrogate d); [|discriminate].
        destruct (Encode r') as [R|] eqn:ER; [|discriminate].
        cbn [bind] in E. injection E as <-.
        apply isCodeUnits_cons in Hr. destruct Hr as [_ Hr'].
        pose proof (IHr' d r' eq_refl Hr' R ltac:(first [exact eq_refl | assumption])).
        destruct (escapeCodePoint_length (UTF16SurrogatePairToCodePoint c d)) as [[_ L] _].
        rewrite length_app. cbn [List.length]. lia.
      * destruct (isTrailingSurrogate c); [discriminate|].
        destruct (Encode r) as [R|] eqn:ER; [|discriminate].
        cbn [bind] in E. injection E as <-.
        pose proof (IHr Hr R ltac:(first [exact eq_refl | assumption])).
        destruct (escapeCodePoint_length c) as [_ L]. specialize (L ltac:(lia)).
        rewrite length_app. cbn [List.length]. lia.
Qed.

Lemma resolved_url_length_witness :
  isCodeUnits [0x20AC; 0x20AC] = true
  /\ exists u, resolveImageUrl [0x20AC; 0x20AC] = Normal u
               /\ (59 + 2 <= List.length u <= 59 + 9 * 2)%nat
               /\ List.length u = (59 + 18)%nat.
Proof.
  split; [reflexivity|]. eexists. split; [reflexivity|]. split; [|reflexivity].
  apply (resolved_url_length [0x20AC; 0x20AC]); reflexivity.
Defined.

(** ** The fallbacks of the [img] element *)



